(** * blackhole_exporter: a shallow embedding of [exporter.go]

    The exporter polls the FastNetMon API, decodes the JSON answer and
    republishes the blocked addresses as a Prometheus gauge vector.

    Go strings and byte slices are Rocq [string]s (sequences of bytes);
    [int], [int64] and [time.Duration] are [Z] with the 64-bit wrap-around
    written out; the gauge vector is a finite map from label values to
    gauge values; the process environment is a finite map.  The functions
    of [exporter.go] keep their names.  What the program imports from the
    Go standard library and from the Prometheus client is modelled in the
    modules [strconv], [utf8], [json] and [GaugeVec], by the behaviour of
    Go 1.22 (the tool chain of the Dockerfile) on a 64-bit platform. *)

From Stdlib Require Import ZArith Ascii String List Lia Bool.
From stdpp Require Import base decidable option list gmap strings fin_maps.

#[local] Set Warnings "-register-all".
#[local] Open Scope string_scope.
#[local] Open Scope Z_scope.

(** ** Bytes *)

Definition code (c : ascii) : Z := Z.of_N (N_of_ascii c).
Definition chr (z : Z) : ascii := ascii_of_N (Z.to_N z).

(** The double quote, byte 34. *)
Definition dquote : ascii := chr 34.

(** ** strconv *)

Module strconv.

Inductive NumError := ErrSyntax | ErrRange.

Definition isDigit (c : ascii) : bool := (48 <=? code c) && (code c <=? 57).

Definition maxUint64 : Z := 2 ^ 64 - 1.

(** The digit loop of [ParseUint] in base 10 with 64 bits: any byte
    that is not a digit (an underscore too, base 10 being explicit)
    is a syntax error; a value that leaves the [uint64] stops the
    loop with a range error. *)
Fixpoint parseUint (n : Z) (s : string) : Z * option NumError :=
  match s with
  | EmptyString => (n, None)
  | String c r =>
      if isDigit c then
        if maxUint64 / 10 + 1 <=? n then (maxUint64, Some ErrRange)
        else
          let n1 := n * 10 + (code c - 48) in
          if maxUint64 <? n1 then (maxUint64, Some ErrRange) else parseUint n1 r
      else (0, Some ErrSyntax)
  end.

(** [strconv.Atoi] with a 64-bit [int]: an optional sign, then decimal
    digits; a value outside of [-2^63, 2^63) is clamped and reported
    with [ErrRange].  The result is a pair as in Go. *)
Definition Atoi (s : string) : Z * option NumError :=
  match s with
  | EmptyString => (0, Some ErrSyntax)
  | String c r =>
      let neg := Ascii.eqb c "-" in
      let body := if Ascii.eqb c "-" || Ascii.eqb c "+" then r else s in
      match body with
      | EmptyString => (0, Some ErrSyntax)
      | _ =>
          match parseUint 0 body with
          | (_, Some ErrSyntax) => (0, Some ErrSyntax)
          | (un, _) =>
              if neg then
                if 2 ^ 63 <? un then (- 2 ^ 63, Some ErrRange) else (- un, None)
              else
                if 2 ^ 63 <=? un then (2 ^ 63 - 1, Some ErrRange) else (un, None)
          end
      end
  end.

End strconv.

(** ** time *)

Module time.

(** [int64] wrap-around. *)
Definition wrap64 (z : Z) : Z := (z + 2 ^ 63) mod 2 ^ 64 - 2 ^ 63.

(** A [Duration] is a number of nanoseconds in an [int64]. *)
Definition Second : Z := 1000000000.

(** [Duration(n) * Second], the multiplication of two [int64]. *)
Definition seconds (n : Z) : Z := wrap64 (n * Second).

End time.

(** ** Configuration *)

Record Config := {
  ApiURL : string;
  User : string;
  Password : string;
  Port : string;
  ScrapeInterval : Z
}.

(** The error values of the program, one constructor per [fmt.Errorf]
    call, with the wrapped cause where there is one. *)
Inductive Error :=
| ErrMissingEnv
| ErrCreatingRequest (cause : string)
| ErrMakingRequest (cause : string)
| ErrUnexpectedStatus (statusCode : Z) (status : string)
| ErrReadingBody (cause : string).

(** [os.Getenv]: the empty string for a variable that is not set. *)
Definition Getenv (env : gmap string string) (k : string) : string :=
  default "" (env !! k).

(** [godotenv.Load]: the variables of the [.env] file are added to the
    environment, a variable that is already set keeps its value. *)
Definition dotenvLoad (file : gmap string string) (env : gmap string string)
  : gmap string string := env ∪ file.

(** ** unicode/utf8 and unicode/utf16 *)

Module utf8.

Definition RuneError : Z := 0xFFFD.
Definition MaxRune : Z := 0x10FFFF.

(** [EncodeRune]: the UTF-8 encoding of a rune; a surrogate or a rune
    out of range is encoded as [RuneError]. *)
Definition EncodeRune (r : Z) : string :=
  if (0 <=? r) && (r <=? 0x7F) then String (chr r) EmptyString
  else if (0 <=? r) && (r <=? 0x7FF) then
    String (chr (Z.lor 0xC0 (Z.shiftr r 6)))
      (String (chr (Z.lor 0x80 (Z.land r 0x3F))) EmptyString)
  else
    let r := if (r <? 0) || (MaxRune <? r) || ((0xD800 <=? r) && (r <=? 0xDFFF))
             then RuneError else r in
    if r <=? 0xFFFF then
      String (chr (Z.lor 0xE0 (Z.shiftr r 12)))
        (String (chr (Z.lor 0x80 (Z.land (Z.shiftr r 6) 0x3F)))
          (String (chr (Z.lor 0x80 (Z.land r 0x3F))) EmptyString))
    else
      String (chr (Z.lor 0xF0 (Z.shiftr r 18)))
        (String (chr (Z.lor 0x80 (Z.land (Z.shiftr r 12) 0x3F)))
          (String (chr (Z.lor 0x80 (Z.land (Z.shiftr r 6) 0x3F)))
            (String (chr (Z.lor 0x80 (Z.land r 0x3F))) EmptyString))).

(** The table [first] with [acceptRanges]: for a leading byte, the
    length of the sequence and the range of the second byte. *)
Definition first (p0 : Z) : option (nat * Z * Z) :=
  if (0xC2 <=? p0) && (p0 <=? 0xDF) then Some (2%nat, 0x80, 0xBF)
  else if p0 =? 0xE0 then Some (3%nat, 0xA0, 0xBF)
  else if p0 =? 0xED then Some (3%nat, 0x80, 0x9F)
  else if (0xE1 <=? p0) && (p0 <=? 0xEF) then Some (3%nat, 0x80, 0xBF)
  else if p0 =? 0xF0 then Some (4%nat, 0x90, 0xBF)
  else if (0xF1 <=? p0) && (p0 <=? 0xF3) then Some (4%nat, 0x80, 0xBF)
  else if p0 =? 0xF4 then Some (4%nat, 0x80, 0x8F)
  else None.

Definition cont (b : Z) : bool := (0x80 <=? b) && (b <=? 0xBF).

(** [DecodeRune]: the first rune of [s] and its width in bytes;
    [(RuneError, 1)] for a sequence that is not well formed. *)
Definition DecodeRune (s : string) : Z * nat :=
  match s with
  | EmptyString => (RuneError, 0%nat)
  | String c0 s1 =>
      let p0 := code c0 in
      if p0 <? 0x80 then (p0, 1%nat)
      else
        match first p0, s1 with
        | Some (sz, lo, hi), String c1 s2 =>
            let b1 := code c1 in
            if (b1 <? lo) || (hi <? b1) then (RuneError, 1%nat)
            else if (sz <=? 2)%nat then
              (Z.lor (Z.shiftl (Z.land p0 0x1F) 6) (Z.land b1 0x3F), 2%nat)
            else
              match s2 with
              | String c2 s3 =>
                  let b2 := code c2 in
                  if negb (cont b2) then (RuneError, 1%nat)
                  else if (sz <=? 3)%nat then
                    (Z.lor (Z.lor (Z.shiftl (Z.land p0 0x0F) 12)
                              (Z.shiftl (Z.land b1 0x3F) 6)) (Z.land b2 0x3F), 3%nat)
                  else
                    match s3 with
                    | String c3 _ =>
                        let b3 := code c3 in
                        if negb (cont b3) then (RuneError, 1%nat)
                        else
                          (Z.lor (Z.lor (Z.lor (Z.shiftl (Z.land p0 0x07) 18)
                                           (Z.shiftl (Z.land b1 0x3F) 12))
                                    (Z.shiftl (Z.land b2 0x3F) 6)) (Z.land b3 0x3F), 4%nat)
                    | EmptyString => (RuneError, 1%nat)
                    end
              | EmptyString => (RuneError, 1%nat)
              end
        | _, _ => (RuneError, 1%nat)
        end
  end.

(** [ValidString], the loop over the bytes of [s]: [skip] counts the
    bytes of the current sequence that the loop index jumps over. *)
Fixpoint validFrom (skip : nat) (s : string) : bool :=
  match s with
  | EmptyString => true
  | String c r =>
      match skip with
      | S k => validFrom k r
      | O =>
          if code c <? 0x80 then validFrom 0 r
          else
            match snd (DecodeRune s) with
            | S (S k) => validFrom (S k) r
            | _ => false
            end
      end
  end.

Definition ValidString (s : string) : bool := validFrom 0 s.

End utf8.

Module utf16.

Definition IsSurrogate (r : Z) : bool := (0xD800 <=? r) && (r <? 0xE000).

(** [DecodeRune]: the rune of a surrogate pair, [RuneError] when the
    two halves are not a high and a low surrogate. *)
Definition DecodeRune (r1 r2 : Z) : Z :=
  if (0xD800 <=? r1) && (r1 <? 0xDC00) && (0xDC00 <=? r2) && (r2 <? 0xE000)
  then Z.lor (Z.shiftl (r1 - 0xD800) 10) (r2 - 0xDC00) + 0x10000
  else utf8.RuneError.

End utf16.

(** ** The API response *)

Record BlockedValue := { UUID : string; IP : string }.

Record BlackholeResponse := { Success : bool; Values : list BlockedValue }.

(** ** encoding/json *)

Module json.

(** A JSON text as the scanner sees it; the members of an object keep
    their order and their duplicates, a number keeps its literal. *)
Inductive value :=
| Null
| Bool (b : bool)
| Number (lit : string)
| Str (s : string)
| Array (vs : list value)
| Object (ms : list (string * value)).

(** *** Unquoting a string literal *)

Definition hexval (c : ascii) : option Z :=
  let n := code c in
  if (48 <=? n) && (n <=? 57) then Some (n - 48)
  else if (97 <=? n) && (n <=? 102) then Some (n - 97 + 10)
  else if (65 <=? n) && (n <=? 70) then Some (n - 65 + 10)
  else None.

(** [getu4]: the rune of a [\uXXXX] escape at the head of [s]. *)
Definition getu4 (s : string) : option Z :=
  match s with
  | String b (String u (String h1 (String h2 (String h3 (String h4 _))))) =>
      if Ascii.eqb b "\" && Ascii.eqb u "u" then
        match hexval h1, hexval h2, hexval h3, hexval h4 with
        | Some a, Some b, Some c, Some d => Some (((a * 16 + b) * 16 + c) * 16 + d)
        | _, _, _, _ => None
        end
      else None
  | _ => None
  end.

Fixpoint dropBytes (n : nat) (s : string) : string :=
  match n, s with
  | S k, String _ r => dropBytes k r
  | _, _ => s
  end.

(** The byte of a one-letter escape. *)
Definition escape (e : ascii) : option ascii :=
  let n := code e in
  if (n =? 34) || (n =? 92) || (n =? 47) || (n =? 39) then Some e
  else if n =? 98 then Some (chr 8)
  else if n =? 102 then Some (chr 12)
  else if n =? 110 then Some (chr 10)
  else if n =? 114 then Some (chr 13)
  else if n =? 116 then Some (chr 9)
  else None.

(** [unquoteBytes] on the text between the quotes.  The read index of
    the Go loop jumps over an escape or a multi-byte rune; here [skip]
    counts the bytes it has jumped over.  Escapes are decoded, a pair
    of surrogate escapes is joined, and what is not well-formed UTF-8
    (a lone surrogate, a stray byte) becomes U+FFFD. *)
Fixpoint unquoteFrom (skip : nat) (s : string) : option string :=
  match s with
  | EmptyString => Some EmptyString
  | String c r =>
      match skip with
      | S k => unquoteFrom k r
      | O =>
          if code c =? 92 then
            match r with
            | EmptyString => None
            | String e _ =>
                if code e =? 117 then
                  match getu4 s with
                  | None => None
                  | Some rr =>
                      if utf16.IsSurrogate rr then
                        let dec := match getu4 (dropBytes 6 s) with
                                   | Some rr1 => utf16.DecodeRune rr rr1
                                   | None => utf8.RuneError
                                   end in
                        if dec =? utf8.RuneError then
                          String.append (utf8.EncodeRune utf8.RuneError) <$> unquoteFrom 5 r
                        else
                          String.append (utf8.EncodeRune dec) <$> unquoteFrom 11 r
                      else
                        String.append (utf8.EncodeRune rr) <$> unquoteFrom 5 r
                  end
                else
                  match escape e with
                  | Some b => String b <$> unquoteFrom 1 r
                  | None => None
                  end
            end
          else if (code c =? 34) || (code c <? 32) then None
          else if code c <? 0x80 then String c <$> unquoteFrom 0 r
          else
            let '(rr, size) := utf8.DecodeRune s in
            String.append (utf8.EncodeRune rr) <$> unquoteFrom (size - 1) r
      end
  end.

Definition unquote (lit : string) : option string := unquoteFrom 0 lit.

(** *** The scanner *)

(** The step functions of [scanner.go].  [InStringEscU n]: [n] hex
    digits of a [\u] escape have been read.  [Lit rest b]: inside
    [true] or [false] ([b] is the boolean) or [null] ([b] is [None]),
    with [rest] still to come. *)
Inductive state :=
| BeginValue | BeginValueOrEmpty | BeginStringOrEmpty | BeginString
| EndValue | EndTop
| InString | InStringEsc | InStringEscU (n : nat)
| Neg | St1 | St0 | Dot | Dot0 | Exp | ESign | E0
| Lit (rest : string) (b : option bool).

(** The parse states of the scanner's stack, each with the part of the
    composite value read so far. *)
Inductive frame :=
| ObjectKey (ms : list (string * value)) (key : option string)
| ObjectValue (ms : list (string * value)) (key : string)
| ArrayValue (vs : list value).

Record scanner := {
  step : state;
  parseState : list frame;
  lit : string;
  top : option value
}.

Definition maxNestingDepth : Z := 10000.

Definition isSpace (c : ascii) : bool :=
  let n := code c in (n =? 32) || (n =? 9) || (n =? 13) || (n =? 10).

Definition set_step (st : state) (s : scanner) : scanner :=
  {| step := st; parseState := parseState s; lit := lit s; top := top s |}.

Definition begin_lit (st : state) (c : ascii) (s : scanner) : scanner :=
  {| step := st; parseState := parseState s; lit := String c EmptyString; top := top s |}.

Definition add_lit (st : state) (c : ascii) (s : scanner) : scanner :=
  {| step := st; parseState := parseState s;
     lit := String.append (lit s) (String c EmptyString); top := top s |}.

(** A value is complete: it goes to the composite value on top of the
    stack, or it is the top-level value. *)
Definition finish (v : value) (s : scanner) : scanner :=
  match parseState s with
  | [] => {| step := step s; parseState := []; lit := lit s; top := Some v |}
  | ObjectKey ms _ :: r =>
      let key := match v with Str k => Some k | _ => None end in
      {| step := step s; parseState := ObjectKey ms key :: r; lit := lit s; top := top s |}
  | ObjectValue ms k :: r =>
      {| step := step s; parseState := ObjectValue (ms ++ [(k, v)]) k :: r;
         lit := lit s; top := top s |}
  | ArrayValue vs :: r =>
      {| step := step s; parseState := ArrayValue (vs ++ [v]) :: r;
         lit := lit s; top := top s |}
  end.

Definition pushParseState (f : frame) (st : state) (s : scanner) : option scanner :=
  if Z.of_nat (length (f :: parseState s)) <=? maxNestingDepth then
    Some {| step := st; parseState := f :: parseState s; lit := lit s; top := top s |}
  else None.

(** [popParseState], with the composite value [v] that ends here. *)
Definition popParseState (v : value) (s : scanner) : scanner :=
  let r := tl (parseState s) in
  finish v {| step := match r with [] => EndTop | _ => EndValue end;
              parseState := r; lit := lit s; top := top s |}.

Definition stateEndTop (s : scanner) (c : ascii) : option scanner :=
  if isSpace c then Some s else None.

Definition stateEndValue (s : scanner) (c : ascii) : option scanner :=
  match parseState s with
  | [] => stateEndTop (set_step EndTop s) c
  | f :: r =>
      if isSpace c then Some (set_step EndValue s)
      else
        match f with
        | ObjectKey ms (Some k) =>
            if code c =? 58 then
              Some {| step := BeginValue; parseState := ObjectValue ms k :: r;
                      lit := lit s; top := top s |}
            else None
        | ObjectKey ms None => None
        | ObjectValue ms _ =>
            if code c =? 44 then
              Some {| step := BeginString; parseState := ObjectKey ms None :: r;
                      lit := lit s; top := top s |}
            else if code c =? 125 then Some (popParseState (Object ms) s)
            else None
        | ArrayValue vs =>
            if code c =? 44 then Some (set_step BeginValue s)
            else if code c =? 93 then Some (popParseState (Array vs) s)
            else None
        end
  end.

Definition stateBeginValue (s : scanner) (c : ascii) : option scanner :=
  let n := code c in
  if isSpace c then Some s
  else if n =? 123 then pushParseState (ObjectKey [] None) BeginStringOrEmpty s
  else if n =? 91 then pushParseState (ArrayValue []) BeginValueOrEmpty s
  else if n =? 34 then Some {| step := InString; parseState := parseState s;
                               lit := EmptyString; top := top s |}
  else if n =? 45 then Some (begin_lit Neg c s)
  else if n =? 48 then Some (begin_lit St0 c s)
  else if n =? 116 then Some (set_step (Lit "rue" (Some true)) s)
  else if n =? 102 then Some (set_step (Lit "alse" (Some false)) s)
  else if n =? 110 then Some (set_step (Lit "ull" None) s)
  else if (49 <=? n) && (n <=? 57) then Some (begin_lit St1 c s)
  else None.

Definition stateBeginString (s : scanner) (c : ascii) : option scanner :=
  if isSpace c then Some s
  else if code c =? 34 then Some {| step := InString; parseState := parseState s;
                                    lit := EmptyString; top := top s |}
  else None.

Definition endNumber (s : scanner) (c : ascii) : option scanner :=
  stateEndValue (finish (Number (lit s)) (set_step EndValue s)) c.

Definition state0 (s : scanner) (c : ascii) : option scanner :=
  let n := code c in
  if n =? 46 then Some (add_lit Dot c s)
  else if (n =? 101) || (n =? 69) then Some (add_lit Exp c s)
  else endNumber s c.

Definition stateESign (s : scanner) (c : ascii) : option scanner :=
  if strconv.isDigit c then Some (add_lit E0 c s) else None.

(** One byte through the scanner; [None] is [scanError]. *)
Definition stepByte (s : scanner) (c : ascii) : option scanner :=
  let n := code c in
  match step s with
  | BeginValue => stateBeginValue s c
  | BeginValueOrEmpty =>
      if isSpace c then Some s
      else if n =? 93 then stateEndValue s c
      else stateBeginValue s c
  | BeginStringOrEmpty =>
      if isSpace c then Some s
      else if n =? 125 then
        match parseState s with
        | ObjectKey ms _ :: _ => Some (popParseState (Object ms) s)
        | _ => None
        end
      else stateBeginString s c
  | BeginString => stateBeginString s c
  | EndValue => stateEndValue s c
  | EndTop => stateEndTop s c
  | InString =>
      if n =? 34 then
        match unquote (lit s) with
        | Some str => Some (finish (Str str) (set_step EndValue s))
        | None => None
        end
      else if n =? 92 then Some (add_lit InStringEsc c s)
      else if n <? 32 then None
      else Some (add_lit InString c s)
  | InStringEsc =>
      if (n =? 98) || (n =? 102) || (n =? 110) || (n =? 114) || (n =? 116)
         || (n =? 92) || (n =? 47) || (n =? 34)
      then Some (add_lit InString c s)
      else if n =? 117 then Some (add_lit (InStringEscU 0) c s)
      else None
  | InStringEscU k =>
      match hexval c with
      | Some _ => Some (add_lit (if (3 <=? k)%nat then InString else InStringEscU (S k)) c s)
      | None => None
      end
  | Neg =>
      if n =? 48 then Some (add_lit St0 c s)
      else if (49 <=? n) && (n <=? 57) then Some (add_lit St1 c s)
      else None
  | St1 => if strconv.isDigit c then Some (add_lit St1 c s) else state0 s c
  | St0 => state0 s c
  | Dot => if strconv.isDigit c then Some (add_lit Dot0 c s) else None
  | Dot0 =>
      if strconv.isDigit c then Some (add_lit Dot0 c s)
      else if (n =? 101) || (n =? 69) then Some (add_lit Exp c s)
      else endNumber s c
  | Exp =>
      if (n =? 43) || (n =? 45) then Some (add_lit ESign c s) else stateESign s c
  | ESign => stateESign s c
  | E0 => if strconv.isDigit c then Some (add_lit E0 c s) else endNumber s c
  | Lit rest b =>
      match rest with
      | String c' rest' =>
          if Ascii.eqb c c' then
            match rest' with
            | EmptyString =>
                Some (finish (match b with Some b => Bool b | None => Null end)
                        (set_step EndValue s))
            | _ => Some (set_step (Lit rest' b) s)
            end
          else None
      | EmptyString => None
      end
  end.

Fixpoint scan (s : scanner) (data : string) : option scanner :=
  match data with
  | EmptyString => Some s
  | String c r =>
      match stepByte s c with
      | Some s' => scan s' r
      | None => None
      end
  end.

(** [eof]: the scanner is told that the input has ended. *)
Definition eof (s : scanner) : option scanner :=
  match step s with
  | EndTop => Some s
  | _ =>
      match stepByte s (chr 32) with
      | Some s' => match step s' with EndTop => Some s' | _ => None end
      | None => None
      end
  end.

Definition reset : scanner :=
  {| step := BeginValue; parseState := []; lit := EmptyString; top := None |}.

(** [checkValid] together with the value that the text denotes;
    [None] is a [SyntaxError]. *)
Definition parse (data : string) : option value :=
  match scan reset data with
  | Some s => match eof s with Some s' => top s' | None => None end
  | None => None
  end.

(** *** Decoding into the response *)

Inductive Error :=
| SyntaxError
| UnmarshalTypeError (Value : string) (GoType : string).

(** Only the first type error is kept; decoding goes on after it. *)
Definition saveError (e : Error) (saved : option Error) : option Error :=
  match saved with
  | Some _ => saved
  | None => Some e
  end.

Definition kind (v : value) : string :=
  match v with
  | Null => "null"
  | Bool _ => "bool"
  | Number _ => "number"
  | Str _ => "string"
  | Array _ => "array"
  | Object _ => "object"
  end.

(** [foldRune] on the runes that matter for the field names of this
    program: the only runes outside of ASCII that fold to an ASCII
    letter are U+017F (long s) and U+212A (Kelvin sign); every other
    one folds to a rune outside of ASCII and is left as it is here. *)
Definition foldRune (r : Z) : Z :=
  if r =? 0x17F then 0x53 else if r =? 0x212A then 0x4B else r.

(** [foldName]: ASCII letters to upper case, other runes folded. *)
Fixpoint foldFrom (skip : nat) (s : string) : string :=
  match s with
  | EmptyString => EmptyString
  | String c r =>
      match skip with
      | S k => foldFrom k r
      | O =>
          let n := code c in
          if n <? 0x80 then
            String (if (97 <=? n) && (n <=? 122) then chr (n - 32) else c) (foldFrom 0 r)
          else
            let '(rr, size) := utf8.DecodeRune s in
            String.append (utf8.EncodeRune (foldRune rr)) (foldFrom (size - 1) r)
      end
  end.

Definition foldName (s : string) : string := foldFrom 0 s.

Fixpoint index_where (p : string -> bool) (i : nat) (l : list string) : option nat :=
  match l with
  | [] => None
  | x :: r => if p x then Some i else index_where p (S i) r
  end.

(** The field that a member key denotes: the field of that exact name,
    or else the field whose name is the same up to case folding. *)
Definition field (names : list string) (key : string) : option nat :=
  match index_where (String.eqb key) 0 names with
  | Some i => Some i
  | None => index_where (fun n => String.eqb (foldName n) (foldName key)) 0 names
  end.

Definition storeBool (v : value) (cur : bool) (err : option Error) : bool * option Error :=
  match v with
  | Bool b => (b, err)
  | Null => (cur, err)
  | _ => (cur, saveError (UnmarshalTypeError (kind v) "bool") err)
  end.

Definition storeString (v : value) (cur : string) (err : option Error)
  : string * option Error :=
  match v with
  | Str s => (s, err)
  | Null => (cur, err)
  | _ => (cur, saveError (UnmarshalTypeError (kind v) "string") err)
  end.

Definition memberBlockedValue (acc : BlockedValue * option Error) (m : string * value)
  : BlockedValue * option Error :=
  let '(e, err) := acc in
  match field ["uuid"; "ip"] (fst m) with
  | Some 0%nat =>
      let '(s, err') := storeString (snd m) (UUID e) err in
      ({| UUID := s; IP := IP e |}, err')
  | Some 1%nat =>
      let '(s, err') := storeString (snd m) (IP e) err in
      ({| UUID := UUID e; IP := s |}, err')
  | _ => (e, err)
  end.

(** A JSON value into a [BlockedValue] that already holds [e]: an
    object sets the fields that it names, in order, and leaves the
    other ones. *)
Definition decodeBlockedValue (v : value) (e : BlockedValue) (err : option Error)
  : BlockedValue * option Error :=
  match v with
  | Null => (e, err)
  | Object ms => fold_left memberBlockedValue ms (e, err)
  | _ => (e, saveError (UnmarshalTypeError (kind v) "main.BlockedValue") err)
  end.

Definition zeroBlockedValue : BlockedValue := {| UUID := EmptyString; IP := EmptyString |}.

(** The elements of a JSON array into the backing array of the slice:
    element [i] is decoded into what the backing array holds at [i],
    the zero value beyond what was ever written. *)
Fixpoint decodeElems (vs : list value) (backing : list BlockedValue) (err : option Error)
  : list BlockedValue * option Error :=
  match vs with
  | [] => ([], err)
  | v :: vs' =>
      let '(e, err1) := decodeBlockedValue v (hd zeroBlockedValue backing) err in
      let '(es, err2) := decodeElems vs' (tl backing) err1 in
      (e :: es, err2)
  end.

(** The state of the target while it is decoded: the response, and
    [spare], the elements of the backing array of [Values] that lie
    beyond its length. *)
Record target := { resp : BlackholeResponse; spare : list BlockedValue }.

Definition storeValues (v : value) (t : target) (err : option Error)
  : target * option Error :=
  match v with
  | Null =>
      ({| resp := {| Success := Success (resp t); Values := [] |}; spare := [] |}, err)
  | Array [] =>
      ({| resp := {| Success := Success (resp t); Values := [] |}; spare := [] |}, err)
  | Array vs =>
      let backing := (Values (resp t) ++ spare t)%list in
      let '(es, err') := decodeElems vs backing err in
      ({| resp := {| Success := Success (resp t); Values := es |};
          spare := drop (length vs) backing |}, err')
  | _ => (t, saveError (UnmarshalTypeError (kind v) "[]main.BlockedValue") err)
  end.

Definition memberResponse (acc : target * option Error) (m : string * value)
  : target * option Error :=
  let '(t, err) := acc in
  match field ["success"; "values"] (fst m) with
  | Some 0%nat =>
      let '(b, err') := storeBool (snd m) (Success (resp t)) err in
      ({| resp := {| Success := b; Values := Values (resp t) |}; spare := spare t |}, err')
  | Some 1%nat => storeValues (snd m) t err
  | _ => (t, err)
  end.

Definition decodeResponse (v : value) (t : target) (err : option Error)
  : target * option Error :=
  match v with
  | Null => (t, err)
  | Object ms => fold_left memberResponse ms (t, err)
  | _ => (t, saveError (UnmarshalTypeError (kind v) "main.BlackholeResponse") err)
  end.

(** [json.Unmarshal(data, &r)] for a response [r] whose slice has no
    spare capacity, as the zero value has.  A text that is not valid
    JSON leaves [r] as it is; a type error leaves what was decoded. *)
Definition Unmarshal (data : string) (r : BlackholeResponse)
  : BlackholeResponse * option Error :=
  match parse data with
  | None => (r, Some SyntaxError)
  | Some v =>
      let '(t, err) := decodeResponse v {| resp := r; spare := [] |} None in
      (resp t, err)
  end.

End json.

(** ** The Prometheus gauge vector *)

Module GaugeVec.

(** One series of the vector, as [Collect] hands it to the registry. *)
Record Series := { ip : string; uuid : string; value : Z }.

(** The metrics of a [GaugeVec] with the variable labels [ip] and
    [uuid], by label values.  The gauges of this program only ever
    hold 0 (a new gauge) or 1, which [Z] represents exactly. *)
Abbreviation Store := (gmap (string * string) Z).

Definition Reset (m : Store) : Store := ∅.

(** [With] validates the label values and returns the gauge of these
    label values, a new one at 0 when the vector has none.  [None]:
    [With] panics, a label value being not valid UTF-8. *)
Definition With (labels : string * string) (m : Store) : option Store :=
  if utf8.ValidString (fst labels) && utf8.ValidString (snd labels) then
    Some (match m !! labels with
          | Some _ => m
          | None => <[labels := 0]> m
          end)
  else None.

(** [Set] on the gauge that [With] returned. *)
Definition Set_ (labels : string * string) (v : Z) (m : Store) : Store :=
  alter (fun _ => v) labels m.

Definition Collect (m : Store) : list Series :=
  (fun kv => {| ip := fst (fst kv); uuid := snd (fst kv); value := snd kv |})
    <$> map_to_list m.

End GaugeVec.

(** ** The process and its surroundings *)

Record Request := {
  Method : string;
  URL : string;
  BasicAuth : option (string * string)
}.

(** What [httpClient.Do] comes back with: a transport error, or a
    response with its status and the outcome of [io.ReadAll] on its
    body (the bytes read, and the error that stopped the reading). *)
Inductive RoundTrip :=
| TransportError (cause : string)
| Response (StatusCode : Z) (Status : string) (Body : string) (ReadErr : option string).

(** The surroundings of the process: the [.env] file (or why it cannot
    be loaded), [url.Parse] (the error for a URL it refuses), what the
    [n]-th call of [httpClient.Do] of the process comes back with,
    [http.ListenAndServe] (the error it returns with, [None] when it
    serves for ever), and the scheduler: for each step of the process
    after the [go] statement of [main], whether the goroutine takes it
    ([true]) or [main] does ([false]).  The process is watched for as
    many steps as the schedule has. *)
Record Platform := {
  dotenv : string + gmap string string;
  urlParse : string -> option string;
  roundTrip : nat -> Request -> RoundTrip;
  listenAndServe : string -> option string;
  schedule : list bool
}.

(** The lines that the program logs, one constructor per call. *)
Inductive LogLine :=
| WarnDotenv (err : string)
| LogDecodeError (e : json.Error)
| LogNotSuccessful
| LogUpdated (found : nat)
| LogScraping
| LogScrapeError (e : Error)
| LogFatalConfig (e : Error)
| LogStarting (port : string)
| LogScrapingEvery (d : Z)
| LogHealthAvailable
| LogFatalServer (err : string).

(** What the process does, in order.  [EvRequest r]: [httpClient.Do]
    is called on [r] (what the client then puts on the wire, nothing
    for a scheme that it does not support, more than one request when
    it follows redirects, is the platform's).  [EvMetrics m]: an
    operation on the gauge vector has left it as [m]; the operations
    of the vector and [Collect] exclude each other, so these are the
    states that a scrape of [/metrics] running next to the program can
    see.  [EvRegister]: the vector is registered with the default
    registry.  [EvHandle p]: a handler is registered for the pattern
    [p] with the default mux. *)
Inductive Event :=
| EvLog (l : LogLine)
| EvRequest (r : Request)
| EvNewTicker (d : Z)
| EvTick
| EvMetrics (m : GaugeVec.Store)
| EvRegister
| EvHandle (pattern : string).

Record World := {
  environ : gmap string string;
  blockedIP : GaugeVec.Store;
  trace : list Event
}.

(** How a computation stops the process: [os.Exit] with a status, or a
    panic that nothing recovers, after which the Go runtime exits with
    the status 2. *)
Inductive Halt :=
| Exit (code : Z)
| Panic (msg : string).

(** Computations of the process: a result or a halt, and the world
    they leave. *)
Definition M (A : Type) : Type := World -> (A + Halt) * World.

Definition ret {A} (a : A) : M A := fun w => (inl a, w).

Definition bind {A B} (m : M A) (f : A -> M B) : M B :=
  fun w =>
    match m w with
    | (inl a, w') => f a w'
    | (inr h, w') => (inr h, w')
    end.

Declare Scope go_scope.
Delimit Scope go_scope with go.
Notation "x <- m ;; k" := (bind m (fun x => k))
  (at level 100, m at next level, right associativity) : go_scope.
Notation "m ;; k" := (bind m (fun _ => k))
  (at level 100, right associativity) : go_scope.
#[local] Open Scope go_scope.

Definition halt {A} (h : Halt) : M A := fun w => (inr h, w).

Definition emit (e : Event) : M unit :=
  fun w => (inl tt, {| environ := environ w; blockedIP := blockedIP w;
                       trace := trace w ++ [e] |}).

Definition log (l : LogLine) : M unit := emit (EvLog l).

(** [log.Fatalf]: the line, then [os.Exit(1)]. *)
Definition Fatalf {A} (l : LogLine) : M A := log l ;; halt (Exit 1).

Definition getEnviron : M (gmap string string) := fun w => (inl (environ w), w).

Definition setEnviron (env : gmap string string) : M unit :=
  fun w => (inl tt, {| environ := env; blockedIP := blockedIP w; trace := trace w |}).

(** An operation on the gauge vector [blockedIP]. *)
Definition setMetrics (m : GaugeVec.Store) : M unit :=
  fun w => (inl tt, {| environ := environ w; blockedIP := m;
                       trace := trace w ++ [EvMetrics m] |}).

Definition blockedIP_Reset : M unit :=
  fun w => setMetrics (GaugeVec.Reset (blockedIP w)) w.

Definition blockedIP_With (labels : string * string) : M (string * string) :=
  fun w =>
    match GaugeVec.With labels (blockedIP w) with
    | Some m => (setMetrics m ;; ret labels) w
    | None => halt (Panic "label value is not valid UTF-8") w
    end.

Definition gauge_Set (labels : string * string) (v : Z) : M unit :=
  fun w => setMetrics (GaugeVec.Set_ labels v (blockedIP w)) w.

(** [for _, v := range l { f v }] *)
Fixpoint forRange {A} (l : list A) (f : A -> M unit) : M unit :=
  match l with
  | [] => ret tt
  | v :: l' => f v ;; forRange l' f
  end.

(** [render]: the series of the vector that [/metrics] serves. *)
Definition render (w : World) : list GaugeVec.Series := GaugeVec.Collect (blockedIP w).

(** ** Goroutines *)

(** The events that [c] adds to the trace of [w]. *)
Definition added {A} (c : M A) (w : World) : list Event :=
  drop (length (trace w)) (trace (snd (c w))).

(** The halt with which [c] ends when it runs from [w], if any. *)
Definition halted {A} (c : M A) (w : World) : option Halt :=
  match fst (c w) with
  | inl _ => None
  | inr h => Some h
  end.

(** A thread of the process by its steps: those it has yet to take,
    each by the event that records it, and the halt that comes after
    the last of them, if any. *)
Record Thread := {
  steps : list Event;
  ending : option Halt
}.

(** The thread that runs [c], as it is in the world [w]. *)
Definition thread (c : M unit) (w : World) : Thread :=
  {| steps := added c w; ending := halted c w |}.

(** The step that the event [e] records. *)
Definition happen (e : Event) : M unit :=
  match e with
  | EvMetrics m => setMetrics m
  | _ => emit e
  end.

(** A turn of a thread: its next step; after its last step, the halt
    that stops the process.  A thread that has no step left and does
    not halt lets the turn pass: it waits ([main] inside of
    [http.ListenAndServe]) or nobody watches it any longer. *)
Definition turn (t : Thread) : M Thread :=
  match steps t with
  | e :: rest => happen e ;; ret {| steps := rest; ending := ending t |}
  | [] =>
      match ending t with
      | Some h => halt h
      | None => ret t
      end
  end.

(** The goroutine [f] and the thread [k] that started it, turn by turn
    as the scheduler decides, for as long as the schedule lasts or
    until one of them halts the process. *)
Fixpoint interleave (s : list bool) (f k : Thread) : M unit :=
  match s with
  | [] => ret tt
  | true :: s' => f' <- turn f ;; interleave s' f' k
  | false :: s' => k' <- turn k ;; interleave s' f k'
  end.

(** ** The program *)

Section Program.

Variable P : Platform.

(** *** loadConfig *)

Definition loadConfig : M (Error + Config) :=
  match dotenv P with
  | inl err => log (WarnDotenv err)
  | inr file => env <- getEnviron ;; setEnviron (dotenvLoad file env)
  end ;;
  env <- getEnviron ;;
  let cfg := {| ApiURL := Getenv env "EXPORTER_API_URL";
                User := Getenv env "EXPORTER_USER";
                Password := Getenv env "EXPORTER_PASSWORD";
                Port := Getenv env "EXPORTER_PORT";
                ScrapeInterval := 0 |} in
  if String.eqb (ApiURL cfg) "" || String.eqb (User cfg) "" || String.eqb (Password cfg) ""
  then ret (inl ErrMissingEnv)
  else
    let port := if String.eqb (Port cfg) "" then ":9898" else Port cfg in
    let intervalStr := Getenv env "EXPORTER_SCRAPE_INTERVAL_SECONDS" in
    let '(interval, err) := strconv.Atoi intervalStr in
    let interval := if bool_decide (err ≠ None) || (interval <=? 0) then 60 else interval in
    ret (inr {| ApiURL := ApiURL cfg; User := User cfg; Password := Password cfg;
                Port := port; ScrapeInterval := time.seconds interval |}).

(** *** fetchBlockedIPs *)

(** [http.NewRequest] with the method GET: it fails when the URL does
    not parse. *)
Definition NewRequest (url : string) : string + Request :=
  match urlParse P url with
  | Some err => inl err
  | None => inr {| Method := "GET"; URL := url; BasicAuth := None |}
  end.

Definition SetBasicAuth (user password : string) (req : Request) : Request :=
  {| Method := Method req; URL := URL req; BasicAuth := Some (user, password) |}.

Definition isRequest (e : Event) : bool :=
  match e with EvRequest _ => true | _ => false end.

(** The number of calls of [httpClient.Do] that the process has
    made. *)
Definition requests (t : list Event) : nat := length (List.filter isRequest t).

(** [httpClient.Do]: the call is recorded; what it comes back with
    is the platform's. *)
Definition Do (req : Request) : M RoundTrip :=
  fun w => (emit (EvRequest req) ;; ret (roundTrip P (requests (trace w)) req)) w.

Definition fetchBlockedIPs (cfg : Config) : M (Error + string) :=
  match NewRequest (ApiURL cfg) with
  | inl err => ret (inl (ErrCreatingRequest err))
  | inr req =>
      let req := SetBasicAuth (User cfg) (Password cfg) req in
      resp <- Do req ;;
      match resp with
      | TransportError err => ret (inl (ErrMakingRequest err))
      | Response StatusCode Status Body ReadErr =>
          if negb (StatusCode =? 200) then
            ret (inl (ErrUnexpectedStatus StatusCode Status))
          else
            match ReadErr with
            | Some err => ret (inl (ErrReadingBody err))
            | None => ret (inr Body)
            end
      end
  end.

(** *** updateMetrics *)

Definition zeroResponse : BlackholeResponse := {| Success := false; Values := [] |}.

(** The second half of [updateMetrics]: the vector is emptied, then
    a gauge is made and set for each value in turn. *)
Definition replace (values : list BlockedValue) : M unit :=
  blockedIP_Reset ;;
  forRange values (fun v => g <- blockedIP_With (IP v, UUID v) ;; gauge_Set g 1).

Definition updateMetrics (body : string) : M unit :=
  let '(resp, err) := json.Unmarshal body zeroResponse in
  match err with
  | Some e => log (LogDecodeError e)
  | None =>
      if negb (Success resp) then log LogNotSuccessful
      else
        replace (Values resp) ;;
        log (LogUpdated (length (Values resp)))
  end.

(** *** startScrapingLoop *)

(** [time.NewTicker] panics on a duration that is not positive. *)
Definition NewTicker (d : Z) : M unit :=
  if d <=? 0 then halt (Panic "non-positive interval for NewTicker")
  else emit (EvNewTicker d).

(** The body of the loop: one scrape cycle. *)
Definition cycle (cfg : Config) : M unit :=
  log LogScraping ;;
  r <- fetchBlockedIPs cfg ;;
  match r with
  | inl err => log (LogScrapeError err)
  | inr body => updateMetrics body
  end.

(** [for ; ; <-ticker.C { cycle }], watched for [n] iterations: the
    body, then the wait for the next tick.  The loop has no condition
    and no exit of its own: it is done with [n] iterations only in
    that nobody watches any longer. *)
Fixpoint scrapingLoop (n : nat) (cfg : Config) : M unit :=
  match n with
  | O => ret tt
  | S k => cycle cfg ;; emit EvTick ;; scrapingLoop k cfg
  end.

Definition startScrapingLoop (n : nat) (cfg : Config) : M unit :=
  NewTicker (ScrapeInterval cfg) ;;
  scrapingLoop n cfg.

(** *** main *)

(** [prometheus.MustRegister(blockedIP)].  The registry of a process
    that starts holds the collectors of the Go runtime and of the
    process, whose names differ from that of the vector, and the
    name, the help and the label names of the vector are valid: the
    registration does not fail. *)
Definition MustRegister : M unit := emit EvRegister.

(** [http.HandleFunc] and [http.Handle] on the default mux, which is
    empty when the process starts. *)
Definition HandleFunc (pattern : string) : M unit := emit (EvHandle pattern).
Definition Handle (pattern : string) : M unit := emit (EvHandle pattern).

(** [go f()] followed by the rest [k] of the function: the two run
    side by side.  Each of them is taken as the thread that it is in
    the world of the [go] statement, and the threads take their steps
    in the order of the schedule.  In this program neither thread
    reads what the other writes: [main] logs and registers handlers,
    the loop reads the vector and the number of its own calls
    ([steady_startScrapingLoop], [loop_thread_after_own]), and a
    goroutine that gets every turn does what it does alone
    ([interleave_alone]). *)
Definition go (f k : M unit) : M unit :=
  fun w => interleave (schedule P) (thread f w) (thread k w) w.

(** [main], for as long as the schedule lasts.  The loop has no end:
    it is taken with as many iterations as the schedule has steps,
    which is more than its turns let it do.  [log.Fatalf] is the line
    and then [os.Exit(1)], so that the loop can take steps between
    the two.  The result is the configuration of the process if it
    still runs when the schedule ends. *)
Definition main : M Config :=
  r <- loadConfig ;;
  match r with
  | inl err => Fatalf (LogFatalConfig err)
  | inr cfg =>
      MustRegister ;;
      go (startScrapingLoop (length (schedule P)) cfg)
         (HandleFunc "/health" ;;
          Handle "/metrics" ;;
          log (LogStarting (Port cfg)) ;;
          log (LogScrapingEvery (ScrapeInterval cfg)) ;;
          log LogHealthAvailable ;;
          match listenAndServe P (Port cfg) with
          | Some err => Fatalf (LogFatalServer err)
          | None => ret tt
          end) ;;
      ret cfg
  end.

End Program.

(** ** Vocabulary of the properties *)

(** Every string inside of a JSON value is valid UTF-8. *)
Fixpoint strings_valid (v : json.value) : bool :=
  match v with
  | json.Str s => utf8.ValidString s
  | json.Array vs => forallb strings_valid vs
  | json.Object ms => forallb (fun m => strings_valid (snd m)) ms
  | _ => true
  end.

Definition frame_valid (f : json.frame) : bool :=
  match f with
  | json.ObjectKey ms _ => forallb (fun m => strings_valid (snd m)) ms
  | json.ObjectValue ms _ => forallb (fun m => strings_valid (snd m)) ms
  | json.ArrayValue vs => forallb strings_valid vs
  end.

Definition scanner_valid (s : json.scanner) : bool :=
  forallb frame_valid (json.parseState s)
  && match json.top s with Some v => strings_valid v | None => true end.

(** The label values that [With] accepts. *)
Definition labels_valid (v : BlockedValue) : bool :=
  utf8.ValidString (IP v) && utf8.ValidString (UUID v).

(** The label values of an entry. *)
Definition labels (v : BlockedValue) : string * string := (IP v, UUID v).

(** The snapshot that a list of entries stands for: a gauge at 1 per
    pair of label values. *)
Definition snapshot (values : list BlockedValue) : GaugeVec.Store :=
  foldl (fun m v => <[labels v := 1]> m) ∅ values.

(** The vector between the [With] and the [Set] of an entry. *)
Definition pending (v : BlockedValue) (m : GaugeVec.Store) : GaugeVec.Store :=
  match m !! labels v with
  | Some _ => m
  | None => <[labels v := 0]> m
  end.

(** The states of the vector in a trace. *)
Fixpoint metricsOf (t : list Event) : list GaugeVec.Store :=
  match t with
  | [] => []
  | EvMetrics m :: t' => m :: metricsOf t'
  | _ :: t' => metricsOf t'
  end.

(** What a scrape of [/metrics] can see of the vector while the
    computation [c] runs from [w]: the vector as [w] has it, and every
    state that an operation of [c] leaves. *)
Definition seen {A} (c : M A) (w : World) : list GaugeVec.Store :=
  blockedIP w :: metricsOf (drop (length (trace w)) (trace (snd (c w)))).

Definition isTick (e : Event) : bool :=
  match e with EvTick => true | _ => false end.

Definition isScraping (e : Event) : bool :=
  match e with EvLog LogScraping => true | _ => false end.

(** The environment that [loadConfig] reads, after [godotenv.Load]. *)
Definition effectiveEnv (P : Platform) (w : World) : gmap string string :=
  match dotenv P with
  | inl _ => environ w
  | inr file => dotenvLoad file (environ w)
  end.

(** A variable is missing: not set, or set to the empty string. *)
Definition missing (env : gmap string string) (k : string) : Prop := Getenv env k = "".

(** *** The expected structure of the payload

    [{success: bool, values: [{uuid: string, ip: string}]}], as the
    declarations of [BlackholeResponse] and [BlockedValue] expect it:
    each member that denotes a field holds a value of the field's type
    or [null]; other members, and fields without a member, are free. *)

Definition isBool (v : json.value) : bool :=
  match v with json.Bool _ | json.Null => true | _ => false end.

Definition isString (v : json.value) : bool :=
  match v with json.Str _ | json.Null => true | _ => false end.

Definition isBlockedValue (v : json.value) : bool :=
  match v with
  | json.Null => true
  | json.Object ms =>
      forallb (fun m => match json.field ["uuid"; "ip"] (fst m) with
                        | Some _ => isString (snd m)
                        | None => true
                        end) ms
  | _ => false
  end.

Definition isValues (v : json.value) : bool :=
  match v with
  | json.Null => true
  | json.Array vs => forallb isBlockedValue vs
  | _ => false
  end.

Definition isResponse (v : json.value) : bool :=
  match v with
  | json.Null => true
  | json.Object ms =>
      forallb (fun m => match json.field ["success"; "values"] (fst m) with
                        | Some 0%nat => isBool (snd m)
                        | Some _ => isValues (snd m)
                        | None => true
                        end) ms
  | _ => false
  end.

(** The payload is a well-formed encoding of the expected structure. *)
Definition wellFormed (body : string) : bool :=
  match json.parse body with
  | Some v => isResponse v
  | None => false
  end.

(** No member of the payload is named [success]. *)
Definition noSuccessMember (v : json.value) : bool :=
  match v with
  | json.Object ms => forallb (fun m => negb (String.eqb (fst m) "success")) ms
  | _ => true
  end.

(** No member of the payload denotes the field [Success]: none is named
    [success], be it in another case. *)
Definition successAbsent (v : json.value) : bool :=
  match v with
  | json.Object ms =>
      forallb (fun m => negb (bool_decide (json.field ["success"; "values"] (fst m) = Some 0%nat))) ms
  | _ => true
  end.

(** A JSON text with ['] written for the double quote. *)
Fixpoint js (s : string) : string :=
  match s with
  | EmptyString => EmptyString
  | String c r => String (if Ascii.eqb c "'" then dquote else c) (js r)
  end.

(** The label values in a decoding target, those of the spare elements
    too, are valid UTF-8. *)
Definition target_valid (t : json.target) : bool :=
  forallb labels_valid (Values (json.resp t)) && forallb labels_valid (json.spare t).

(** The states that the loop of [replace] leaves in the vector [m], in
    order: after the [With] and after the [Set] of each entry, up to an
    entry on which [With] panics. *)
Fixpoint fillSteps (m : GaugeVec.Store) (values : list BlockedValue) : list GaugeVec.Store :=
  match values with
  | [] => []
  | v :: values' =>
      match GaugeVec.With (labels v) m with
      | None => []
      | Some m1 =>
          let m2 := GaugeVec.Set_ (labels v) 1 m1 in
          m1 :: m2 :: fillSteps m2 values'
      end
  end.

(** A state of the vector on the way to the snapshot of [values]: the
    snapshot of the first [n] entries, or that with the gauge of the
    next entry made and not yet set. *)
Definition onTheWay (values : list BlockedValue) (s : GaugeVec.Store) : Prop :=
  exists n : nat,
    (n <= length values)%nat /\
    (s = snapshot (take n values)
     \/ exists v, values !! n = Some v /\ s = pending v (snapshot (take n values))).

Definition noError (err : option json.Error) : bool :=
  match err with
  | None => true
  | Some _ => false
  end.

(** The labels of a series. *)
Definition seriesLabels (s : GaugeVec.Series) : string * string :=
  (GaugeVec.ip s, GaugeVec.uuid s).

(** The world after a line of the log. *)
Definition logged (l : LogLine) (w : World) : World :=
  {| environ := environ w; blockedIP := blockedIP w; trace := trace w ++ [EvLog l] |}.

(** The request that [fetchBlockedIPs] hands to [httpClient.Do]. *)
Definition request (cfg : Config) : Request :=
  {| Method := "GET"; URL := ApiURL cfg; BasicAuth := Some (User cfg, Password cfg) |}.

(** What [fetchBlockedIPs] returns when its call of [httpClient.Do]
    is the [n]-th of the process, by the four ways in which it ends. *)
Definition fetched (P : Platform) (cfg : Config) (n : nat) : Error + string :=
  match urlParse P (ApiURL cfg) with
  | Some err => inl (ErrCreatingRequest err)
  | None =>
      match roundTrip P n (request cfg) with
      | TransportError err => inl (ErrMakingRequest err)
      | Response code status body readErr =>
          if code =? 200 then
            match readErr with
            | Some err => inl (ErrReadingBody err)
            | None => inr body
            end
          else inl (ErrUnexpectedStatus code status)
      end
  end.

(** ** Examples *)

Definition entry1 : BlockedValue := {| UUID := "u1"; IP := "1.2.3.4" |}.
Definition entry2 : BlockedValue := {| UUID := "u2"; IP := "5.6.7.8" |}.

(** A process that has published [values] and logged nothing yet. *)
Definition worldWith (values : list BlockedValue) : World :=
  {| environ := ∅; blockedIP := snapshot values; trace := [] |}.

(** A platform without [.env] file whose upstream always gives the
    same answer. *)
Definition platformWith (answer : RoundTrip) : Platform :=
  {| dotenv := inl "open .env: no such file or directory";
     urlParse := fun _ => None;
     roundTrip := fun _ _ => answer;
     listenAndServe := fun _ => None;
     schedule := [] |}.

Definition ok200 (body : string) : RoundTrip := Response 200 "200 OK" body None.

Definition exampleConfig : Config :=
  {| ApiURL := "http://fnm.example/blackhole"; User := "api"; Password := "secret";
     Port := ":9898"; ScrapeInterval := time.seconds 60 |}.

Definition payloadOne : string :=
  js "{'success':true,'values':[{'uuid':'u1','ip':'1.2.3.4'}]}".

Definition payloadTwo : string :=
  js "{'success':true,'values':[{'uuid':'u2','ip':'5.6.7.8'}]}".

Definition payloadFailed : string :=
  js "{'success':false,'values':[{'uuid':'u2','ip':'5.6.7.8'}]}".

Definition payloadTruncated : string := js "{'success':true,'values':[".

Definition payloadNoSuccess : string := js "{'values':[{'uuid':'u2','ip':'5.6.7.8'}]}".

Definition payloadValuesNumber : string := js "{'values':3}".

Definition payloadUpperCase : string :=
  js "{'Success':true,'values':[{'uuid':'u2','ip':'5.6.7.8'}]}".

(** An environment with the three required variables and a scrape
    interval. *)
Definition exampleEnv (interval : string) : gmap string string :=
  list_to_map [("EXPORTER_API_URL", "http://fnm.example/blackhole");
               ("EXPORTER_USER", "api");
               ("EXPORTER_PASSWORD", "secret");
               ("EXPORTER_SCRAPE_INTERVAL_SECONDS", interval)].

Definition startWorld (env : gmap string string) : World :=
  {| environ := env; blockedIP := ∅; trace := [] |}.

(** The world after a tick of the ticker. *)
Definition ticked (w : World) : World :=
  {| environ := environ w; blockedIP := blockedIP w; trace := trace w ++ [EvTick] |}.

(** The interval in seconds that [loadConfig] takes from the text of
    the variable. *)
Definition intervalSeconds (intervalStr : string) : Z :=
  let '(interval, err) := strconv.Atoi intervalStr in
  if bool_decide (err ≠ None) || (interval <=? 0) then 60 else interval.

(** The world in which [loadConfig] reads the environment. *)
Definition afterDotenv (P : Platform) (w : World) : World :=
  match dotenv P with
  | inl err => logged (WarnDotenv err) w
  | inr file => {| environ := dotenvLoad file (environ w); blockedIP := blockedIP w;
                   trace := trace w |}
  end.

(** An event of a cycle that is neither a tick nor the line that opens
    a cycle. *)
Definition quiet (e : Event) : Prop := isTick e = false /\ isScraping e = false.

(** The world once [startScrapingLoop] has made its ticker. *)
Definition tickerStarted (cfg : Config) (w : World) : World :=
  {| environ := environ w; blockedIP := blockedIP w;
     trace := trace w ++ [EvNewTicker (ScrapeInterval cfg)] |}.

Definition payloadNoValues : string := js "{'success':true}".

(** ** net/http: the response writer of the server *)

Module http.

(** The [response] that the server hands to a handler as its
  [ResponseWriter]: the request that it answers, the header map of
  [Header()], the status line once written with the headers as they
  were then, and the bytes of the body that went out. *)
Record response := {
req : Request;
handlerHeader : gmap string string;
wroteHeader : option (Z * gmap string string);
written : string
}.

(** The response writer for a request, with the headers [h] set so far. *)
Definition newResponse (r : Request) (h : gmap string string) : response :=
{| req := r; handlerHeader := h; wroteHeader := None; written := EmptyString |}.

(** [w.Header().Set(key, value)], for a key that is in canonical form
  as [Content-Type] is. *)
Definition HeaderSet (key value : string) (w : response) : response :=
{| req := req w; handlerHeader := <[key := value]> (handlerHeader w);
   wroteHeader := wroteHeader w; written := written w |}.

(** [WriteHeader]: a call after the header has gone out changes
  nothing; else a code outside of 100..999 panics ([None]), an
  informational code (1xx but 101) does not end the header, and any
  other status goes out with a copy of the header map. *)
Definition WriteHeader (code : Z) (w : response) : option response :=
match wroteHeader w with
| Some _ => Some w
| None =>
    if (code <? 100) || (999 <? code) then None
    else if (100 <=? code) && (code <=? 199) && negb (code =? 101) then Some w
    else Some {| req := req w; handlerHeader := handlerHeader w;
                 wroteHeader := Some (code, handlerHeader w); written := written w |}
end.

Definition bodyAllowedForStatus (status : Z) : bool :=
negb (((100 <=? status) && (status <=? 199)) || (status =? 204) || (status =? 304)).

(** [io.WriteString(w, s)]: the header goes out with 200 if it has not
  yet; the bytes follow, unless the status allows no body or the
  request is a HEAD request, whose body the server swallows. *)
Definition WriteString (s : string) (w : response) : option response :=
match (match wroteHeader w with
       | Some _ => Some w
       | None => WriteHeader 200 w
       end) with
| None => None
| Some w1 =>
    match wroteHeader w1 with
    | None => Some w1
    | Some (status, _) =>
        if String.eqb s EmptyString then Some w1
        else if negb (bodyAllowedForStatus status) then Some w1
        else if String.eqb (Method (req w1)) "HEAD" then Some w1
        else Some {| req := req w1; handlerHeader := handlerHeader w1;
                     wroteHeader := wroteHeader w1;
                     written := String.append (written w1) s |}
    end
end.

End http.

(** *** healthCheckHandler *)

Definition healthBody : string := js "{'status': 'ok'}".

Definition healthCheckHandler (w : http.response) (r : Request) : option http.response :=
  let w := http.HeaderSet "Content-Type" "application/json" w in
  match http.WriteHeader 200 w with
  | None => None
  | Some w => http.WriteString healthBody w
  end.

(** ** More vocabulary *)

(** The number of calls of [httpClient.Do] in a cycle: none when
    [http.NewRequest] refuses the URL of the configuration. *)
Definition doCalls (P : Platform) (cfg : Config) : nat :=
  match urlParse P (ApiURL cfg) with
  | Some _ => 0%nat
  | None => 1%nat
  end.

(** The entries that the cycle publishes whose call of
    [httpClient.Do] is the [n]-th, if its payload arrives, decodes and
    says [success]. *)
Definition goodValues (P : Platform) (cfg : Config) (n : nat) : option (list BlockedValue) :=
  match fetched P cfg n with
  | inl _ => None
  | inr body =>
      let '(resp, err) := json.Unmarshal body zeroResponse in
      if noError err && Success resp then Some (Values resp) else None
  end.

(** The entries of the latest of [k] cycles that published any, the
    first of these cycles making call [n] of [httpClient.Do]. *)
Fixpoint latestGood (P : Platform) (cfg : Config) (k n : nat) : option (list BlockedValue) :=
  match k with
  | O => None
  | S k' =>
      match latestGood P cfg k' (n + doCalls P cfg) with
      | Some vs => Some vs
      | None => goodValues P cfg n
      end
  end.

(** A platform like [P] but for its [.env] file. *)
Definition withDotenv (P : Platform) (d : string + gmap string string) : Platform :=
  {| dotenv := d; urlParse := urlParse P; roundTrip := roundTrip P;
     listenAndServe := listenAndServe P;
     schedule := schedule P |}.

Definition isLog (e : Event) : bool :=
  match e with EvLog _ => true | _ => false end.

Definition payloadPair : string :=
  js "{'success':true,'values':[{'uuid':'u1','ip':'1.2.3.4'},{'uuid':'u2','ip':'5.6.7.8'}]}".

(** The same entries in another order, one of them twice. *)
Definition payloadPairAgain : string :=
  js "{'values':[{'ip':'5.6.7.8','uuid':'u2'},{'uuid':'u1','ip':'1.2.3.4'},{'uuid':'u2','ip':'5.6.7.8'}],'success':true}".

(** An upstream that answers the [n]-th request with the [n]-th body
    of a list, and refuses the connection beyond the list. *)
Definition platformScript (bodies : list string) : Platform :=
  {| dotenv := inl "open .env: no such file or directory";
     urlParse := fun _ => None;
     roundTrip := fun n _ => match bodies !! n with
                             | Some body => ok200 body
                             | None => TransportError "connection refused"
                             end;
     listenAndServe := fun _ => None;
     schedule := [] |}.

(** The label values of a series are valid UTF-8. *)
Definition seriesValid (s : GaugeVec.Series) : bool :=
  utf8.ValidString (GaugeVec.ip s) && utf8.ValidString (GaugeVec.uuid s).

(** The value that [loadConfig] finds for a variable: that of the
    process environment when the variable is set there, else that of
    the [.env] file. *)
Definition pick (env file : gmap string string) (k : string) : string :=
  match env !! k with
  | Some v => v
  | None => Getenv file k
  end.

(** A [.env] file with the three required variables. *)
Definition exampleDotenv : gmap string string :=
  list_to_map [("EXPORTER_API_URL", "http://file.example/blackhole");
               ("EXPORTER_USER", "fileuser");
               ("EXPORTER_PASSWORD", "filesecret");
               ("EXPORTER_PORT", ":9100")].

(** A platform with this [.env] file, or with a listener that fails. *)
Definition platformDotenv : Platform :=
  withDotenv (platformWith (ok200 payloadOne)) (inr exampleDotenv).

Definition platformNoListen : Platform :=
  {| dotenv := inl "open .env: no such file or directory";
     urlParse := fun _ => None;
     roundTrip := fun _ _ => ok200 payloadOne;
     listenAndServe := fun _ => Some "listen tcp :9898: bind: address already in use";
     schedule := [] |}.

(** The bytes of [s] are JSON white space. *)
Fixpoint allSpace (s : string) : bool :=
  match s with
  | EmptyString => true
  | String c r => json.isSpace c && allSpace r
  end.

Fixpoint noSpace (s : string) : bool :=
  match s with
  | EmptyString => true
  | String c r => negb (json.isSpace c) && noSpace r
  end.

(** What is left of a literal [true], [false] or [null] holds no
    white space. *)
Definition litNoSpace (s : json.scanner) : bool :=
  match json.step s with
  | json.Lit rest _ => noSpace rest
  | _ => true
  end.

(** The value of the text that the scanner has read, if the text ends
    here. *)
Definition final (s : json.scanner) : option json.value :=
  match json.eof s with
  | Some s' => json.top s'
  | None => None
  end.

(** The member denotes one of the fields [names]. *)
Definition denotes (names : list string) (m : string * json.value) : bool :=
  match json.field names (fst m) with
  | Some _ => true
  | None => false
  end.

Definition payloadSpaced : string :=
  String.append (String (chr 10) "  ") (String.append payloadOne (String (chr 13) (String (chr 10) ""))).

(** The payload of [payloadOne] with members that the response does
    not declare. *)
Definition payloadExtra : string :=
  js "{'success':true,'error_text':'','values':[{'uuid':'u1','ip':'1.2.3.4'}],'total':1}".

(** The line that [updateMetrics] logs for what [Unmarshal] returned. *)
Definition outcomeLine (r : BlackholeResponse * option json.Error) : LogLine :=
  match snd r with
  | Some e => LogDecodeError e
  | None => if Success (fst r) then LogUpdated (length (Values (fst r))) else LogNotSuccessful
  end.

(** ** Threads *)

(** The world after the steps that the events [t] record. *)
Definition replay (t : list Event) (w : World) : World :=
  {| environ := environ w;
     blockedIP := default (blockedIP w) (last (metricsOf t));
     trace := trace w ++ t |}.

(** Two worlds between which the program sees no difference once it
    has its configuration: the same environment, the same vector and
    as many calls of [httpClient.Do]. *)
Definition alike (w w' : World) : Prop :=
  environ w = environ w'
  /\ blockedIP w = blockedIP w'
  /\ requests (trace w) = requests (trace w').

(** Every change that [c] makes to the world is a step on record, and
    [c] takes the same steps to the same end in every world alike. *)
Definition steady {A} (c : M A) : Prop :=
  forall w, exists t, forall w', alike w w' -> c w' = (fst (c w), replay t w').

(** [t] takes the elements of [a] and of [b], each list in its
    order. *)
Inductive interleaving {A} : list A -> list A -> list A -> Prop :=
| interleaving_nil : interleaving [] [] []
| interleaving_l x a b t : interleaving a b t -> interleaving (x :: a) b (x :: t)
| interleaving_r x a b t : interleaving a b t -> interleaving a (x :: b) (x :: t).

(** The steps of [main] after the [go] statement. *)
Definition ownSteps (P : Platform) (cfg : Config) : list Event :=
  [EvHandle "/health"; EvHandle "/metrics";
   EvLog (LogStarting (Port cfg));
   EvLog (LogScrapingEvery (ScrapeInterval cfg));
   EvLog LogHealthAvailable]
  ++ match listenAndServe P (Port cfg) with
     | Some err => [EvLog (LogFatalServer err)]
     | None => []
     end.


(** A platform like [P] but for its scheduler. *)
Definition withSchedule (P : Platform) (s : list bool) : Platform :=
  {| dotenv := dotenv P; urlParse := urlParse P; roundTrip := roundTrip P;
     listenAndServe := listenAndServe P; schedule := s |}.

#[local] Open Scope list_scope.

(** * Properties *)

(** ** Bytes and bit operations *)

Lemma code_chr z : 0 <= z < 256 -> code (chr z) = z.
Proof.
  intros H. unfold code, chr.
  rewrite N_ascii_embedding by lia. lia.
Qed.

Lemma code_range c : 0 <= code c < 256.
Proof.
  unfold code. pose proof (N_ascii_bounded c). lia.
Qed.

Lemma land_high (a x k : Z) : 0 <= k -> 0 <= x < 2 ^ k -> Z.land (a * 2 ^ k) x = 0.
Proof.
  intros Hk Hx.
  destruct (Z.eq_dec x 0) as [-> | Hne]; [apply Z.land_0_r |].
  apply Z.bits_inj'. intros n Hn.
  rewrite Z.land_spec, Z.bits_0.
  destruct (Z.lt_ge_cases n k) as [Hlt | Hge].
  - rewrite Z.mul_pow2_bits_low by lia. reflexivity.
  - rewrite (Z.bits_above_log2 x n), andb_false_r; [reflexivity | lia |].
    apply Z.log2_lt_pow2; [lia |].
    apply Z.lt_le_trans with (2 ^ k); [lia | apply Z.pow_le_mono_r; lia].
Qed.

Lemma lor_high (a x k : Z) :
  0 <= k -> 0 <= x < 2 ^ k -> Z.lor (a * 2 ^ k) x = a * 2 ^ k + x.
Proof.
  intros Hk Hx.
  rewrite <- Z.lxor_lor by (apply land_high; lia).
  symmetry. apply Z.add_nocarry_lxor, land_high; lia.
Qed.

Lemma lor_0x80 x : 0 <= x < 64 -> Z.lor 0x80 x = 0x80 + x.
Proof. intros H. apply (lor_high 2 x 6); lia. Qed.

Lemma lor_0xC0 x : 0 <= x < 64 -> Z.lor 0xC0 x = 0xC0 + x.
Proof. intros H. apply (lor_high 3 x 6); lia. Qed.

Lemma lor_0xE0 x : 0 <= x < 32 -> Z.lor 0xE0 x = 0xE0 + x.
Proof. intros H. apply (lor_high 7 x 5); lia. Qed.

Lemma lor_0xF0 x : 0 <= x < 16 -> Z.lor 0xF0 x = 0xF0 + x.
Proof. intros H. apply (lor_high 15 x 4); lia. Qed.

Lemma land_0x3F r : Z.land r 0x3F = r mod 64.
Proof. change 0x3F with (Z.ones 6). rewrite Z.land_ones by lia. reflexivity. Qed.

Lemma shiftr_div r k : 0 <= k -> Z.shiftr r k = r / 2 ^ k.
Proof. intros. apply Z.shiftr_div_pow2; lia. Qed.

(** ** UTF-8 *)

Ltac zcases :=
  repeat (match goal with
          | |- context [?a <? ?b] => destruct (Z.ltb_spec a b); try lia
          | |- context [?a <=? ?b] => destruct (Z.leb_spec a b); try lia
          | |- context [?a =? ?b] => destruct (Z.eqb_spec a b); try lia
          end;
          cbn [andb orb negb fst snd Nat.leb]).

Lemma validFrom_ascii c s :
  code c < 0x80 -> utf8.validFrom 0 (String c s) = utf8.validFrom 0 s.
Proof.
  intros H. cbn [utf8.validFrom]. zcases. reflexivity.
Qed.

Lemma validFrom_2 c0 c1 s :
  0xC2 <= code c0 <= 0xDF -> 0x80 <= code c1 <= 0xBF ->
  utf8.validFrom 0 (String c0 (String c1 s)) = utf8.validFrom 0 s.
Proof.
  intros H0 H1. cbn [utf8.validFrom].
  unfold utf8.DecodeRune, utf8.first. zcases; reflexivity.
Qed.

Lemma validFrom_3 c0 c1 c2 s :
  0xE0 <= code c0 <= 0xEF -> 0x80 <= code c1 <= 0xBF -> 0x80 <= code c2 <= 0xBF ->
  (code c0 = 0xE0 -> 0xA0 <= code c1) ->
  (code c0 = 0xED -> code c1 <= 0x9F) ->
  utf8.validFrom 0 (String c0 (String c1 (String c2 s))) = utf8.validFrom 0 s.
Proof.
  intros H0 H1 H2 Ha Hb. cbn [utf8.validFrom].
  unfold utf8.DecodeRune, utf8.first, utf8.cont. zcases; reflexivity.
Qed.

Lemma validFrom_4 c0 c1 c2 c3 s :
  0xF0 <= code c0 <= 0xF4 -> 0x80 <= code c1 <= 0xBF ->
  0x80 <= code c2 <= 0xBF -> 0x80 <= code c3 <= 0xBF ->
  (code c0 = 0xF0 -> 0x90 <= code c1) ->
  (code c0 = 0xF4 -> code c1 <= 0x8F) ->
  utf8.validFrom 0 (String c0 (String c1 (String c2 (String c3 s)))) = utf8.validFrom 0 s.
Proof.
  intros H0 H1 H2 H3 Ha Hb. cbn [utf8.validFrom].
  unfold utf8.DecodeRune, utf8.first, utf8.cont. zcases; reflexivity.
Qed.

Ltac byte_arith :=
  rewrite ?land_0x3F, ?(shiftr_div _ 6), ?(shiftr_div _ 12), ?(shiftr_div _ 18) by lia;
  change (2 ^ 6) with 64; change (2 ^ 12) with 4096; change (2 ^ 18) with 262144.

Ltac dlia := Z.div_mod_to_equations; lia.

Lemma EncodeRune_3_valid r s :
  0x800 <= r <= 0xFFFF -> ~ (0xD800 <= r <= 0xDFFF) ->
  utf8.validFrom 0
    (String (chr (Z.lor 0xE0 (Z.shiftr r 12)))
       (String (chr (Z.lor 0x80 (Z.land (Z.shiftr r 6) 0x3F)))
          (String (chr (Z.lor 0x80 (Z.land r 0x3F))) s)))
  = utf8.validFrom 0 s.
Proof.
  intros Hr Hs. byte_arith.
  rewrite (lor_0xE0 (r / 4096)), !lor_0x80 by dlia.
  apply validFrom_3; rewrite !code_chr by dlia; dlia.
Qed.

Lemma EncodeRune_4_valid r s :
  0x10000 <= r <= 0x10FFFF ->
  utf8.validFrom 0
    (String (chr (Z.lor 0xF0 (Z.shiftr r 18)))
       (String (chr (Z.lor 0x80 (Z.land (Z.shiftr r 12) 0x3F)))
          (String (chr (Z.lor 0x80 (Z.land (Z.shiftr r 6) 0x3F)))
             (String (chr (Z.lor 0x80 (Z.land r 0x3F))) s))))
  = utf8.validFrom 0 s.
Proof.
  intros Hr. byte_arith.
  rewrite (lor_0xF0 (r / 262144)), !lor_0x80 by dlia.
  apply validFrom_4; rewrite !code_chr by dlia; dlia.
Qed.

(** What [EncodeRune] writes is a well-formed sequence: [ValidString]
    steps over it. *)
Lemma validFrom_EncodeRune r s :
  utf8.validFrom 0 (String.append (utf8.EncodeRune r) s) = utf8.validFrom 0 s.
Proof.
  unfold utf8.EncodeRune, utf8.MaxRune, utf8.RuneError.
  destruct (Z.leb_spec 0 r); cbn [andb orb].
  - destruct (Z.leb_spec r 0x7F).
    { cbn [String.append]. apply validFrom_ascii. rewrite code_chr; lia. }
    destruct (Z.leb_spec r 0x7FF).
    { cbn [String.append]. byte_arith.
      rewrite (lor_0xC0 (r / 64)), lor_0x80 by dlia.
      apply validFrom_2; rewrite code_chr by dlia; dlia. }
    destruct (Z.ltb_spec r 0); [lia |]. cbn [orb].
    destruct (Z.ltb_spec 0x10FFFF r); cbn [orb].
    { apply (EncodeRune_3_valid 0xFFFD); lia. }
    destruct (Z.leb_spec 0xD800 r); cbn [andb].
    + destruct (Z.leb_spec r 0xDFFF).
      { apply (EncodeRune_3_valid 0xFFFD); lia. }
      destruct (Z.leb_spec r 0xFFFF); cbn [String.append].
      * apply EncodeRune_3_valid; lia.
      * apply EncodeRune_4_valid; lia.
    + destruct (Z.leb_spec r 0xFFFF); [| lia]. cbn [String.append].
      apply EncodeRune_3_valid; lia.
  - destruct (Z.ltb_spec r 0); [| lia]. cbn [orb].
    apply (EncodeRune_3_valid 0xFFFD); lia.
Qed.

Lemma escape_ascii e b : json.escape e = Some b -> code b < 0x80.
Proof.
  unfold json.escape. intros H.
  repeat match type of H with
         | (if ?c then _ else _) = _ => destruct c eqn:?
         end; inversion H; subst; try (rewrite code_chr; lia).
  repeat match goal with
         | E : orb _ _ = true |- _ => apply orb_true_iff in E; destruct E
         | E : (_ =? _) = true |- _ => apply Z.eqb_eq in E
         end; lia.
Qed.

(** [unquote] coerces to valid UTF-8. *)
Lemma unquoteFrom_valid s : forall skip out,
  json.unquoteFrom skip s = Some out -> utf8.ValidString out = true.
Proof.
  unfold utf8.ValidString.
  induction s as [| c r IH]; intros skip out H; cbn [json.unquoteFrom] in H.
  - inversion H. reflexivity.
  - destruct skip as [| k]; [| eauto].
    repeat match type of H with
           | (if ?b then _ else _) = _ => destruct b eqn:?
           | match ?x with _ => _ end = _ => destruct x eqn:?
           | (let '(_, _) := ?x in _) = _ => destruct x eqn:?
           end; try discriminate;
    match type of H with
    | _ <$> json.unquoteFrom ?k ?x = Some _ =>
        destruct (json.unquoteFrom k x) as [out' |] eqn:Hr; [| discriminate];
        inversion H; subst; apply IH in Hr
    end;
    rewrite ?validFrom_EncodeRune; try assumption.
    + rewrite validFrom_ascii; [assumption | eauto using escape_ascii].
    + rewrite validFrom_ascii; [assumption | lia].
Qed.

Lemma unquote_valid lit out : json.unquote lit = Some out -> utf8.ValidString out = true.
Proof. apply unquoteFrom_valid. Qed.

(** ** The scanner yields strings of valid UTF-8 *)

Lemma scanner_valid_iff s :
  scanner_valid s = true <->
  forallb frame_valid (json.parseState s) = true
  /\ match json.top s with Some v => strings_valid v = true | None => True end.
Proof.
  unfold scanner_valid. rewrite andb_true_iff.
  destruct (json.top s); intuition.
Qed.

Lemma finish_valid v s :
  strings_valid v = true -> scanner_valid s = true ->
  scanner_valid (json.finish v s) = true.
Proof.
  rewrite !scanner_valid_iff. intros Hv [Hs Ht]. unfold json.finish.
  destruct (json.parseState s) as [| [ms k | ms k | vs] r]; cbn in *; [tauto | tauto | |];
    apply andb_true_iff in Hs as [Hf Hr];
    (split; [| assumption]);
    rewrite forallb_app, Hf, Hr; cbn; rewrite Hv; reflexivity.
Qed.

Lemma set_step_valid st s : scanner_valid (json.set_step st s) = scanner_valid s.
Proof. reflexivity. Qed.

Lemma add_lit_valid st c s : scanner_valid (json.add_lit st c s) = scanner_valid s.
Proof. reflexivity. Qed.

Lemma begin_lit_valid st c s : scanner_valid (json.begin_lit st c s) = scanner_valid s.
Proof. reflexivity. Qed.

Lemma pushParseState_valid f st s s' :
  frame_valid f = true -> scanner_valid s = true ->
  json.pushParseState f st s = Some s' -> scanner_valid s' = true.
Proof.
  unfold json.pushParseState. intros Hf Hs H.
  destruct (_ <=? _); inversion H; subst.
  unfold scanner_valid in *. cbn. rewrite Hf. exact Hs.
Qed.

Lemma popParseState_valid v s :
  strings_valid v = true -> scanner_valid s = true ->
  scanner_valid (json.popParseState v s) = true.
Proof.
  intros Hv Hs. unfold json.popParseState. apply finish_valid; [assumption |].
  apply scanner_valid_iff in Hs as [Hs Ht]. apply scanner_valid_iff. cbn. split; [| assumption].
  destruct (json.parseState s); [reflexivity |].
  cbn in Hs. apply andb_true_iff in Hs. tauto.
Qed.

Lemma stateEndTop_valid s c s' :
  scanner_valid s = true -> json.stateEndTop s c = Some s' -> scanner_valid s' = true.
Proof.
  unfold json.stateEndTop. destruct (json.isSpace c); congruence.
Qed.

Lemma stateEndValue_valid s c s' :
  scanner_valid s = true -> json.stateEndValue s c = Some s' -> scanner_valid s' = true.
Proof.
  intros Hs H. unfold json.stateEndValue in H.
  destruct (json.parseState s) as [| f r] eqn:Hps.
  { eapply stateEndTop_valid; [| exact H]. exact Hs. }
  destruct (json.isSpace c); [inversion H; subst; exact Hs |].
  assert (Hf : frame_valid f = true /\ forallb frame_valid r = true).
  { apply scanner_valid_iff in Hs as [Hs _]. rewrite Hps in Hs.
    cbn in Hs. apply andb_true_iff in Hs. exact Hs. }
  assert (Ht : match json.top s with Some v => strings_valid v = true | None => True end).
  { apply scanner_valid_iff in Hs. tauto. }
  destruct Hf as [Hf Hr].
  destruct f as [ms [k |] | ms k | vs]; try discriminate;
    repeat match type of H with
           | (if ?b then _ else _) = _ => destruct b
           end; inversion H; subst;
    try (apply popParseState_valid; [exact Hf | exact Hs]);
    try exact Hs;
    apply scanner_valid_iff; cbn; rewrite Hr; cbn in Hf; rewrite ?Hf; tauto.
Qed.

Lemma stateBeginValue_valid s c s' :
  scanner_valid s = true -> json.stateBeginValue s c = Some s' -> scanner_valid s' = true.
Proof.
  intros Hs H. unfold json.stateBeginValue in H.
  repeat match type of H with
         | (if ?b then _ else _) = _ => destruct b
         end;
    try (inversion H; subst; exact Hs);
    try (eapply pushParseState_valid; [| exact Hs | exact H]; reflexivity).
Qed.

Lemma stateBeginString_valid s c s' :
  scanner_valid s = true -> json.stateBeginString s c = Some s' -> scanner_valid s' = true.
Proof.
  intros Hs H. unfold json.stateBeginString in H.
  repeat match type of H with
         | (if ?b then _ else _) = _ => destruct b
         end; inversion H; subst; exact Hs.
Qed.

Lemma endNumber_valid s c s' :
  scanner_valid s = true -> json.endNumber s c = Some s' -> scanner_valid s' = true.
Proof.
  intros Hs H. unfold json.endNumber in H.
  eapply stateEndValue_valid; [| exact H].
  apply finish_valid; [reflexivity | exact Hs].
Qed.

Lemma state0_valid s c s' :
  scanner_valid s = true -> json.state0 s c = Some s' -> scanner_valid s' = true.
Proof.
  intros Hs H. unfold json.state0 in H.
  repeat match type of H with
         | (if ?b then _ else _) = _ => destruct b
         end; try (inversion H; subst; exact Hs).
  eapply endNumber_valid; eassumption.
Qed.

Ltac scanner_cases H :=
  repeat match type of H with
         | (if ?b then _ else _) = _ => destruct b
         | match ?x with _ => _ end = _ => destruct x eqn:?
         end.

Ltac scanner_done Hs H :=
  first [ discriminate H
        | injection H as <-; exact Hs
        | eapply stateBeginValue_valid; [exact Hs | exact H]
        | eapply stateEndValue_valid; [exact Hs | exact H]
        | eapply stateBeginString_valid; [exact Hs | exact H]
        | eapply stateEndTop_valid; [exact Hs | exact H]
        | eapply state0_valid; [exact Hs | exact H]
        | eapply endNumber_valid; [exact Hs | exact H]
        | idtac ].

Lemma stepByte_valid s c s' :
  scanner_valid s = true -> json.stepByte s c = Some s' -> scanner_valid s' = true.
Proof.
  intros Hs H. unfold json.stepByte, json.stateESign in H.
  destruct (json.step s); scanner_cases H; scanner_done Hs H.
  - injection H as <-. apply popParseState_valid; [| exact Hs].
    apply scanner_valid_iff in Hs as [Hs _].
    match goal with E : json.parseState s = _ |- _ => rewrite E in Hs end.
    cbn in Hs. apply andb_true_iff in Hs. tauto.
  - injection H as <-. apply finish_valid; [| exact Hs].
    cbn. eauto using unquote_valid.
  - injection H as <-. apply finish_valid; [| exact Hs].
    match goal with |- context [match ?b with _ => _ end] => destruct b end; reflexivity.
Qed.

Lemma scan_valid data : forall s s',
  scanner_valid s = true -> json.scan s data = Some s' -> scanner_valid s' = true.
Proof.
  induction data as [| c r IH]; intros s s' Hs H; cbn in H.
  - congruence.
  - destruct (json.stepByte s c) eqn:Hc; [| discriminate].
    eauto using stepByte_valid.
Qed.

Lemma eof_valid s s' :
  scanner_valid s = true -> json.eof s = Some s' -> scanner_valid s' = true.
Proof.
  intros Hs H. unfold json.eof in H.
  destruct (json.step s); try (inversion H; subst; exact Hs);
    (destruct (json.stepByte s (chr 32)) as [s1 |] eqn:Hc; [| discriminate];
     destruct (json.step s1); try discriminate; inversion H; subst;
     eauto using stepByte_valid).
Qed.

(** Every string of a parsed JSON text is valid UTF-8. *)
Lemma parse_valid data v : json.parse data = Some v -> strings_valid v = true.
Proof.
  unfold json.parse. intros H.
  destruct (json.scan json.reset data) as [s |] eqn:Hscan; [| discriminate].
  destruct (json.eof s) as [s' |] eqn:Heof; [| discriminate].
  assert (Hv : scanner_valid s' = true).
  { eapply eof_valid; [| exact Heof]. eapply scan_valid; [| exact Hscan]. reflexivity. }
  apply scanner_valid_iff in Hv as [_ Hv]. rewrite H in Hv. exact Hv.
Qed.

(** ** The decoder keeps the strings valid *)

Lemma storeString_valid v cur err :
  strings_valid v = true -> utf8.ValidString cur = true ->
  utf8.ValidString (fst (json.storeString v cur err)) = true.
Proof.
  intros Hv Hc. destruct v; cbn; assumption.
Qed.

Lemma memberBlockedValue_valid acc m :
  strings_valid (snd m) = true -> labels_valid (fst acc) = true ->
  labels_valid (fst (json.memberBlockedValue acc m)) = true.
Proof.
  intros Hm He. destruct acc as [e err]. unfold json.memberBlockedValue.
  cbn [fst] in He. pose proof He as He'.
  unfold labels_valid in He'. apply andb_true_iff in He' as [Hi Hu].
  destruct (json.field _ _) as [[| [| n]] |]; try exact He.
  - pose proof (storeString_valid (snd m) (UUID e) err Hm Hu) as Hs.
    destruct (json.storeString _ _ _). unfold labels_valid. cbn [fst UUID IP] in *.
    rewrite Hi, Hs. reflexivity.
  - pose proof (storeString_valid (snd m) (IP e) err Hm Hi) as Hs.
    destruct (json.storeString _ _ _). unfold labels_valid. cbn [fst UUID IP] in *.
    rewrite Hu, Hs. reflexivity.
Qed.

Lemma fold_memberBlockedValue_valid ms : forall acc,
  forallb (fun m => strings_valid (snd m)) ms = true ->
  labels_valid (fst acc) = true ->
  labels_valid (fst (fold_left json.memberBlockedValue ms acc)) = true.
Proof.
  induction ms as [| m ms IH]; intros acc Hms He; cbn in *; [assumption |].
  apply andb_true_iff in Hms as [Hm Hms].
  apply IH; [assumption |]. apply memberBlockedValue_valid; assumption.
Qed.

Lemma decodeBlockedValue_valid v e err :
  strings_valid v = true -> labels_valid e = true ->
  labels_valid (fst (json.decodeBlockedValue v e err)) = true.
Proof.
  intros Hv He. destruct v; cbn [json.decodeBlockedValue fst]; try assumption.
  apply fold_memberBlockedValue_valid; assumption.
Qed.

Lemma decodeElems_valid vs : forall backing err,
  forallb strings_valid vs = true -> forallb labels_valid backing = true ->
  forallb labels_valid (fst (json.decodeElems vs backing err)) = true.
Proof.
  induction vs as [| v vs IH]; intros backing err Hvs Hb; cbn in *; [reflexivity |].
  apply andb_true_iff in Hvs as [Hv Hvs].
  assert (Hh : labels_valid (hd json.zeroBlockedValue backing) = true).
  { destruct backing; cbn in *; [reflexivity |]. apply andb_true_iff in Hb. tauto. }
  assert (Ht : forallb labels_valid (tl backing) = true).
  { destruct backing; cbn in *; [reflexivity |]. apply andb_true_iff in Hb. tauto. }
  pose proof (decodeBlockedValue_valid v _ err Hv Hh) as He.
  destruct (json.decodeBlockedValue _ _ _) as [e err1].
  specialize (IH (tl backing) err1 Hvs Ht).
  destruct (json.decodeElems _ _ _) as [es err2].
  cbn in *. rewrite He, IH. reflexivity.
Qed.

Lemma forallb_drop {A} (p : A -> bool) n l :
  forallb p l = true -> forallb p (drop n l) = true.
Proof.
  revert n. induction l as [| x l IH]; intros [| n] H; cbn in *; try assumption; try reflexivity.
  apply andb_true_iff in H. apply IH. tauto.
Qed.

Lemma storeValues_valid v t err :
  strings_valid v = true -> target_valid t = true ->
  target_valid (fst (json.storeValues v t err)) = true.
Proof.
  intros Hv Ht. unfold json.storeValues.
  destruct v as [| | | | vs |]; cbn [fst]; try assumption; try reflexivity.
  destruct vs as [| v vs]; [reflexivity |].
  unfold target_valid in Ht. apply andb_true_iff in Ht as [H1 H2].
  assert (Hb : forallb labels_valid (Values (json.resp t) ++ json.spare t) = true).
  { rewrite forallb_app, H1, H2. reflexivity. }
  pose proof (decodeElems_valid (v :: vs) _ err Hv Hb) as He.
  destruct (json.decodeElems _ _ _) as [es err'].
  unfold target_valid. cbn [fst json.resp json.spare Values] in *.
  rewrite He. apply forallb_drop. exact Hb.
Qed.

Lemma memberResponse_valid acc m :
  strings_valid (snd m) = true -> target_valid (fst acc) = true ->
  target_valid (fst (json.memberResponse acc m)) = true.
Proof.
  intros Hm Ht. destruct acc as [t err]. unfold json.memberResponse.
  destruct (json.field _ _) as [[| [| n]] |]; cbn [fst] in *; try assumption.
  - destruct (json.storeBool _ _ _). exact Ht.
  - apply storeValues_valid; assumption.
Qed.

Lemma fold_memberResponse_valid ms : forall acc,
  forallb (fun m => strings_valid (snd m)) ms = true ->
  target_valid (fst acc) = true ->
  target_valid (fst (fold_left json.memberResponse ms acc)) = true.
Proof.
  induction ms as [| m ms IH]; intros acc Hms Ht; cbn in *; [assumption |].
  apply andb_true_iff in Hms as [Hm Hms].
  apply IH; [assumption |]. apply memberResponse_valid; assumption.
Qed.

Lemma decodeResponse_valid v t err :
  strings_valid v = true -> target_valid t = true ->
  target_valid (fst (json.decodeResponse v t err)) = true.
Proof.
  intros Hv Ht. destruct v; cbn [json.decodeResponse fst]; try assumption.
  apply fold_memberResponse_valid; assumption.
Qed.

(** Whatever the payload, the label values that [Unmarshal] leaves in
    the response are valid UTF-8. *)
Lemma Unmarshal_valid data r :
  forallb labels_valid (Values r) = true ->
  forallb labels_valid (Values (fst (json.Unmarshal data r))) = true.
Proof.
  intros Hr. unfold json.Unmarshal.
  destruct (json.parse data) as [v |] eqn:Hp; [| exact Hr].
  pose proof (decodeResponse_valid v {| json.resp := r; json.spare := [] |} None
                (parse_valid _ _ Hp)) as H.
  destruct (json.decodeResponse _ _ _) as [t err]. cbn [fst] in *.
  unfold target_valid in H. cbn in H. rewrite Hr in H. specialize (H eq_refl).
  apply andb_true_iff in H. tauto.
Qed.

(** ** The gauge vector *)

Lemma With_valid (v : BlockedValue) (m : GaugeVec.Store) :
  labels_valid v = true -> GaugeVec.With (labels v) m = Some (pending v m).
Proof.
  unfold GaugeVec.With, labels_valid, labels, pending. cbn [fst snd].
  intros ->. reflexivity.
Qed.

Lemma With_Some (v : BlockedValue) (m m1 : GaugeVec.Store) :
  GaugeVec.With (labels v) m = Some m1 -> m1 = pending v m.
Proof.
  unfold GaugeVec.With, pending. destruct (_ && _); congruence.
Qed.

Lemma Set_pending (v : BlockedValue) (m : GaugeVec.Store) :
  GaugeVec.Set_ (labels v) 1 (pending v m) = <[labels v := 1]> m.
Proof.
  unfold GaugeVec.Set_, pending. apply map_eq. intros k.
  destruct (decide (labels v = k)) as [<- | Hne].
  - rewrite lookup_alter_eq, lookup_insert_eq.
    destruct (m !! labels v) eqn:E; [rewrite E | rewrite lookup_insert_eq]; reflexivity.
  - rewrite lookup_alter_ne, lookup_insert_ne by assumption.
    destruct (m !! labels v); [reflexivity |]. rewrite lookup_insert_ne by assumption.
    reflexivity.
Qed.

Lemma snapshot_snoc (vs : list BlockedValue) (v : BlockedValue) : snapshot (vs ++ [v]) = <[labels v := 1]> (snapshot vs).
Proof. unfold snapshot. rewrite foldl_app. reflexivity. Qed.

Lemma snapshot_lookup (vs : list BlockedValue) (k : string * string) :
  snapshot vs !! k = if bool_decide (k ∈ labels <$> vs) then Some 1 else None.
Proof.
  induction vs as [| v vs IH] using rev_ind.
  - cbn. rewrite lookup_empty. reflexivity.
  - rewrite snapshot_snoc, fmap_app. cbn [fmap list_fmap].
    destruct (decide (labels v = k)) as [<- | Hne].
    + rewrite lookup_insert_eq, bool_decide_eq_true_2; [reflexivity |].
      apply elem_of_app. right. apply list_elem_of_singleton. reflexivity.
    + rewrite lookup_insert_ne, IH by assumption.
      destruct (bool_decide (k ∈ labels <$> vs)) eqn:E.
      * apply bool_decide_eq_true in E. rewrite bool_decide_eq_true_2; [reflexivity |].
        apply elem_of_app. left. exact E.
      * apply bool_decide_eq_false in E. rewrite bool_decide_eq_false_2; [reflexivity |].
        intros [H | H]%elem_of_app; [tauto |].
        apply list_elem_of_singleton in H. congruence.
Qed.

(** ** The run of [replace] *)

Lemma last_cons {A} (l : list A) : forall a d, List.last (a :: l) d = List.last l a.
Proof.
  induction l as [| b l IH]; intros a d; [reflexivity |].
  change (List.last (a :: b :: l) d) with (List.last (b :: l) d).
  rewrite !IH. reflexivity.
Qed.

Lemma forRange_cons {A} (v : A) vs (f : A -> M unit) w :
  forRange (v :: vs) f w =
  match f v w with
  | (inl _, w') => forRange vs f w'
  | (inr h, w') => (inr h, w')
  end.
Proof. reflexivity. Qed.

Lemma fill_step v w :
  (g <- blockedIP_With (IP v, UUID v) ;; gauge_Set g 1) w =
  match GaugeVec.With (labels v) (blockedIP w) with
  | Some m1 =>
      (inl tt, {| environ := environ w;
                  blockedIP := GaugeVec.Set_ (labels v) 1 m1;
                  trace := (trace w ++ [EvMetrics m1])
                             ++ [EvMetrics (GaugeVec.Set_ (labels v) 1 m1)] |})
  | None => (inr (Panic "label value is not valid UTF-8"), w)
  end.
Proof.
  unfold bind, blockedIP_With. change (IP v, UUID v) with (labels v).
  destruct (GaugeVec.With (labels v) (blockedIP w)); reflexivity.
Qed.

Lemma forRange_fill vs : forall w,
  let r := forRange vs (fun v => g <- blockedIP_With (IP v, UUID v) ;; gauge_Set g 1) w in
  environ (snd r) = environ w
  /\ trace (snd r) = trace w ++ (EvMetrics <$> fillSteps (blockedIP w) vs)
  /\ blockedIP (snd r) = List.last (fillSteps (blockedIP w) vs) (blockedIP w)
  /\ (forallb labels_valid vs = true -> fst r = inl tt).
Proof.
  induction vs as [| v vs IH]; intros w; cbv zeta.
  - cbn. rewrite app_nil_r. auto.
  - rewrite forRange_cons, fill_step. cbn [fillSteps].
    destruct (GaugeVec.With (labels v) (blockedIP w)) as [m1 |] eqn:HW.
    + match goal with
      | |- context [forRange vs _ ?w1] => specialize (IH w1)
      end.
      cbn [blockedIP trace environ] in IH. cbv zeta in IH.
      destruct IH as (He & Ht & Hb & Hok).
      rewrite He, Ht, Hb. repeat split.
      * rewrite <- !app_assoc. reflexivity.
      * rewrite !last_cons. reflexivity.
      * cbn [forallb]. intros [_ H]%andb_true_iff. auto.
    + cbn. rewrite app_nil_r. repeat split.
      intros [Hv _]%andb_true_iff. rewrite With_valid in HW by assumption. discriminate.
Qed.

Lemma replace_unfold vs w :
  replace vs w =
  forRange vs (fun v => g <- blockedIP_With (IP v, UUID v) ;; gauge_Set g 1)
    {| environ := environ w; blockedIP := ∅; trace := trace w ++ [EvMetrics ∅] |}.
Proof. reflexivity. Qed.

Lemma replace_run vs w :
  let r := replace vs w in
  environ (snd r) = environ w
  /\ trace (snd r) = trace w ++ (EvMetrics <$> (∅ :: fillSteps ∅ vs))
  /\ blockedIP (snd r) = List.last (fillSteps ∅ vs) ∅
  /\ (forallb labels_valid vs = true -> fst r = inl tt).
Proof.
  cbv zeta. rewrite replace_unfold.
  match goal with
  | |- context [forRange vs _ ?w1] => pose proof (forRange_fill vs w1) as H
  end.
  cbn [blockedIP trace environ] in H. cbv zeta in H.
  destruct H as (He & Ht & Hb & Hok).
  rewrite He, Ht, Hb. repeat split; [| exact Hok].
  rewrite <- app_assoc. reflexivity.
Qed.

(** The states on the way are those of [onTheWay]. *)
Lemma fillSteps_snapshot vs : forall pre s,
  s ∈ fillSteps (snapshot pre) vs ->
  exists n : nat,
    (n <= length vs)%nat /\
    (s = snapshot (pre ++ take n vs)
     \/ exists v, vs !! n = Some v /\ s = pending v (snapshot (pre ++ take n vs))).
Proof.
  induction vs as [| v vs IH]; intros pre s Hs; cbn [fillSteps] in Hs.
  - inversion Hs.
  - destruct (GaugeVec.With (labels v) (snapshot pre)) as [m1 |] eqn:HW; [| inversion Hs].
    apply With_Some in HW. subst m1. rewrite Set_pending, <- snapshot_snoc in Hs.
    apply elem_of_cons in Hs as [-> | Hs].
    { exists 0%nat. split; [cbn; lia |]. right. exists v. cbn. rewrite app_nil_r. auto. }
    apply elem_of_cons in Hs as [-> | Hs].
    { exists 1%nat. split; [cbn; lia |]. left. cbn. reflexivity. }
    apply IH in Hs as (n & Hn & Hs). exists (S n). split; [cbn; lia |].
    cbn [take lookup list_lookup]. rewrite <- app_assoc in Hs. exact Hs.
Qed.

Lemma fillSteps_last vs : forall pre,
  forallb labels_valid vs = true ->
  List.last (fillSteps (snapshot pre) vs) (snapshot pre) = snapshot (pre ++ vs).
Proof.
  induction vs as [| v vs IH]; intros pre Hv; cbn [fillSteps].
  - rewrite app_nil_r. reflexivity.
  - cbn [forallb] in Hv. apply andb_true_iff in Hv as [Hv Hvs].
    rewrite With_valid by assumption. rewrite Set_pending, <- snapshot_snoc.
    cbv zeta. specialize (IH (pre ++ [v]) Hvs). rewrite <- app_assoc in IH. cbn in IH.
    rewrite <- IH, !last_cons. reflexivity.
Qed.

(** ** When decoding fails *)

Lemma saveError_noError e err : noError (json.saveError e err) = false.
Proof. destruct err; reflexivity. Qed.

Lemma storeBool_error v cur err :
  noError (snd (json.storeBool v cur err)) = noError err && isBool v.
Proof.
  destruct v; cbn [json.storeBool snd isBool];
    rewrite ?saveError_noError, ?andb_true_r, ?andb_false_r; reflexivity.
Qed.

Lemma storeString_error v cur err :
  noError (snd (json.storeString v cur err)) = noError err && isString v.
Proof.
  destruct v; cbn [json.storeString snd isString];
    rewrite ?saveError_noError, ?andb_true_r, ?andb_false_r; reflexivity.
Qed.

Lemma index_where_lt p l : forall i j,
  json.index_where p i l = Some j -> (j < i + length l)%nat.
Proof.
  induction l as [| x l IH]; intros i j H; cbn in H; [discriminate |].
  destruct (p x).
  - inversion H. cbn. lia.
  - apply IH in H. cbn. lia.
Qed.

Lemma field_lt names key i : json.field names key = Some i -> (i < length names)%nat.
Proof.
  unfold json.field. intros H.
  destruct (json.index_where (String.eqb key) 0 names) eqn:E.
  - inversion H; subst. apply index_where_lt in E. lia.
  - apply index_where_lt in H. lia.
Qed.

Lemma memberBlockedValue_error acc m :
  noError (snd (json.memberBlockedValue acc m)) =
  noError (snd acc) && match json.field ["uuid"; "ip"] (fst m) with
                       | Some _ => isString (snd m)
                       | None => true
                       end.
Proof.
  destruct acc as [e err]. unfold json.memberBlockedValue. cbn [snd].
  destruct (json.field _ _) as [[| [| n]] |] eqn:Hf.
  - pose proof (storeString_error (snd m) (UUID e) err) as H.
    destruct (json.storeString _ _ _). exact H.
  - pose proof (storeString_error (snd m) (IP e) err) as H.
    destruct (json.storeString _ _ _). exact H.
  - apply field_lt in Hf. cbn in Hf. lia.
  - cbn. rewrite andb_true_r. reflexivity.
Qed.

Lemma fold_memberBlockedValue_error ms : forall acc,
  noError (snd (fold_left json.memberBlockedValue ms acc)) =
  noError (snd acc) && isBlockedValue (json.Object ms).
Proof.
  induction ms as [| m ms IH]; intros acc; cbn [fold_left].
  - cbn. rewrite andb_true_r. reflexivity.
  - rewrite IH, memberBlockedValue_error. cbn [isBlockedValue forallb].
    rewrite andb_assoc. reflexivity.
Qed.

Lemma decodeBlockedValue_error v e err :
  noError (snd (json.decodeBlockedValue v e err)) = noError err && isBlockedValue v.
Proof.
  destruct v; cbn [json.decodeBlockedValue snd];
    rewrite ?saveError_noError, ?andb_false_r, ?andb_true_r; try reflexivity.
  apply fold_memberBlockedValue_error.
Qed.

Lemma decodeElems_error vs : forall backing err,
  noError (snd (json.decodeElems vs backing err)) = noError err && forallb isBlockedValue vs.
Proof.
  induction vs as [| v vs IH]; intros backing err; cbn [json.decodeElems forallb].
  - cbn. rewrite andb_true_r. reflexivity.
  - pose proof (decodeBlockedValue_error v (hd json.zeroBlockedValue backing) err) as H.
    destruct (json.decodeBlockedValue _ _ _) as [e err1].
    specialize (IH (tl backing) err1).
    destruct (json.decodeElems _ _ _) as [es err2].
    cbn [snd] in *. rewrite IH, H, andb_assoc. reflexivity.
Qed.

Lemma storeValues_error v t err :
  noError (snd (json.storeValues v t err)) = noError err && isValues v.
Proof.
  destruct v as [| | | | vs |]; cbn [json.storeValues snd isValues];
    rewrite ?saveError_noError, ?andb_false_r, ?andb_true_r; try reflexivity.
  destruct vs as [| v vs]; [cbn; rewrite andb_true_r; reflexivity |].
  pose proof (decodeElems_error (v :: vs) (Values (json.resp t) ++ json.spare t) err) as H.
  cbv zeta. destruct (json.decodeElems _ _ _). exact H.
Qed.

Lemma memberResponse_error acc m :
  noError (snd (json.memberResponse acc m)) =
  noError (snd acc) && match json.field ["success"; "values"] (fst m) with
                       | Some 0%nat => isBool (snd m)
                       | Some _ => isValues (snd m)
                       | None => true
                       end.
Proof.
  destruct acc as [t err]. unfold json.memberResponse. cbn [snd].
  destruct (json.field _ _) as [[| [| n]] |] eqn:Hf.
  - pose proof (storeBool_error (snd m) (Success (json.resp t)) err) as H.
    destruct (json.storeBool _ _ _). exact H.
  - apply storeValues_error.
  - apply field_lt in Hf. cbn in Hf. lia.
  - cbn. rewrite andb_true_r. reflexivity.
Qed.

Lemma fold_memberResponse_error ms : forall acc,
  noError (snd (fold_left json.memberResponse ms acc)) =
  noError (snd acc) && isResponse (json.Object ms).
Proof.
  induction ms as [| m ms IH]; intros acc; cbn [fold_left].
  - cbn. rewrite andb_true_r. reflexivity.
  - rewrite IH, memberResponse_error. cbn [isResponse forallb].
    rewrite andb_assoc. reflexivity.
Qed.

Lemma decodeResponse_error v t err :
  noError (snd (json.decodeResponse v t err)) = noError err && isResponse v.
Proof.
  destruct v; cbn [json.decodeResponse snd];
    rewrite ?saveError_noError, ?andb_false_r, ?andb_true_r; try reflexivity.
  apply fold_memberResponse_error.
Qed.

(** [Unmarshal] returns an error exactly for the payloads that are not
    a well-formed encoding of the expected structure. *)
Lemma Unmarshal_error body r :
  noError (snd (json.Unmarshal body r)) = wellFormed body.
Proof.
  unfold json.Unmarshal, wellFormed.
  destruct (json.parse body) as [v |]; [| reflexivity].
  pose proof (decodeResponse_error v {| json.resp := r; json.spare := [] |} None) as H.
  destruct (json.decodeResponse _ _ _). exact H.
Qed.

(** ** A payload without the field [success] *)

Lemma memberResponse_Success acc m :
  json.field ["success"; "values"] (fst m) <> Some 0%nat ->
  Success (json.resp (fst (json.memberResponse acc m))) = Success (json.resp (fst acc)).
Proof.
  intros Hf. destruct acc as [t err]. unfold json.memberResponse.
  destruct (json.field _ _) as [[| [| n]] |]; cbn [fst]; try reflexivity; [congruence |].
  unfold json.storeValues.
  destruct (snd m) as [| | | | [| v vs] |]; cbn [fst json.resp Success]; try reflexivity.
  destruct (json.decodeElems _ _ _). reflexivity.
Qed.

Lemma fold_memberResponse_Success ms : forall acc,
  successAbsent (json.Object ms) = true ->
  Success (json.resp (fst (fold_left json.memberResponse ms acc))) =
  Success (json.resp (fst acc)).
Proof.
  induction ms as [| m ms IH]; intros acc H; cbn [fold_left]; [reflexivity |].
  cbn [successAbsent forallb] in H. apply andb_true_iff in H as [Hm Hms].
  rewrite IH by exact Hms. apply memberResponse_Success.
  apply negb_true_iff, bool_decide_eq_false in Hm. exact Hm.
Qed.

Lemma decodeResponse_Success v t err :
  successAbsent v = true ->
  Success (json.resp (fst (json.decodeResponse v t err))) = Success (json.resp t).
Proof.
  intros H. destruct v; cbn [json.decodeResponse fst]; try reflexivity.
  apply (fold_memberResponse_Success ms (t, err) H).
Qed.

Lemma Unmarshal_successAbsent body v :
  json.parse body = Some v -> successAbsent v = true ->
  Success (fst (json.Unmarshal body zeroResponse)) = false.
Proof.
  intros Hp Ha. unfold json.Unmarshal. rewrite Hp.
  pose proof (decodeResponse_Success v {| json.resp := zeroResponse; json.spare := [] |}
                None Ha) as H.
  destruct (json.decodeResponse _ _ _). exact H.
Qed.

(** ** The run of [updateMetrics] *)

Lemma updateMetrics_error body w e :
  snd (json.Unmarshal body zeroResponse) = Some e ->
  updateMetrics body w = (inl tt, logged (LogDecodeError e) w).
Proof.
  unfold updateMetrics. destruct (json.Unmarshal _ _) as [resp err].
  cbn [snd]. intros ->. reflexivity.
Qed.

Lemma updateMetrics_unsuccessful body w :
  snd (json.Unmarshal body zeroResponse) = None ->
  Success (fst (json.Unmarshal body zeroResponse)) = false ->
  updateMetrics body w = (inl tt, logged LogNotSuccessful w).
Proof.
  unfold updateMetrics. destruct (json.Unmarshal _ _) as [resp err].
  cbn [fst snd]. intros -> ->. reflexivity.
Qed.

Lemma updateMetrics_success body w :
  snd (json.Unmarshal body zeroResponse) = None ->
  Success (fst (json.Unmarshal body zeroResponse)) = true ->
  let vs := Values (fst (json.Unmarshal body zeroResponse)) in
  updateMetrics body w =
  (inl tt, {| environ := environ w;
              blockedIP := snapshot vs;
              trace := trace w ++ (EvMetrics <$> (∅ :: fillSteps ∅ vs))
                         ++ [EvLog (LogUpdated (length vs))] |}).
Proof.
  intros He Hs vs.
  pose proof (Unmarshal_valid body zeroResponse eq_refl) as Hv. fold vs in Hv.
  unfold updateMetrics. subst vs.
  destruct (json.Unmarshal _ _) as [resp err].
  cbn [fst snd] in *. subst err. rewrite Hs. cbn [negb].
  unfold bind.
  destruct (replace_run (Values resp) w) as (H1 & H2 & H3 & H4).
  specialize (H4 Hv).
  destruct (replace (Values resp) w) as [r w1]. cbn [fst snd] in *. subst r.
  unfold log, emit. rewrite H1, H2, H3.
  change (List.last (fillSteps ∅ (Values resp)) ∅)
    with (List.last (fillSteps (snapshot []) (Values resp)) (snapshot [])).
  rewrite fillSteps_last by exact Hv. rewrite <- app_assoc. reflexivity.
Qed.

(** [updateMetrics] never halts the process: no payload makes [With]
    panic. *)
Lemma updateMetrics_returns body w : fst (updateMetrics body w) = inl tt.
Proof.
  destruct (snd (json.Unmarshal body zeroResponse)) as [e |] eqn:He.
  - rewrite (updateMetrics_error _ _ e He). reflexivity.
  - destruct (Success (fst (json.Unmarshal body zeroResponse))) eqn:Hs.
    + rewrite updateMetrics_success by assumption. reflexivity.
    + rewrite updateMetrics_unsuccessful by assumption. reflexivity.
Qed.

(** ** What [render] shows *)

Lemma elem_of_Collect (m : GaugeVec.Store) s :
  s ∈ GaugeVec.Collect m <-> m !! seriesLabels s = Some (GaugeVec.value s).
Proof.
  unfold GaugeVec.Collect, seriesLabels. rewrite list_elem_of_fmap. split.
  - intros ([[i u] x] & -> & H). cbn. apply elem_of_map_to_list. exact H.
  - intros H. exists (GaugeVec.ip s, GaugeVec.uuid s, GaugeVec.value s). split.
    + destruct s. reflexivity.
    + apply elem_of_map_to_list. exact H.
Qed.

Lemma Collect_labels (m : GaugeVec.Store) :
  seriesLabels <$> GaugeVec.Collect m = (map_to_list m).*1.
Proof.
  unfold GaugeVec.Collect. rewrite <- list_fmap_compose.
  apply list_fmap_ext. intros _ [[i u] x] _. reflexivity.
Qed.

Lemma NoDup_Collect_labels (m : GaugeVec.Store) :
  NoDup (seriesLabels <$> GaugeVec.Collect m).
Proof. rewrite Collect_labels. apply NoDup_fst_map_to_list. Qed.

(** A payload whose decoded [success] is false only leaves a line in
    the log. *)
Lemma updateMetrics_unpublished body w :
  Success (fst (json.Unmarshal body zeroResponse)) = false ->
  exists l, updateMetrics body w = (inl tt, logged l w).
Proof.
  intros Hs. destruct (snd (json.Unmarshal body zeroResponse)) as [e |] eqn:He.
  - eexists. apply updateMetrics_error. exact He.
  - eexists. apply updateMetrics_unsuccessful; assumption.
Qed.

(** ** The run of [fetchBlockedIPs] and of a cycle *)

Section Runs.

Variable P : Platform.

Lemma fetchBlockedIPs_run cfg w :
  fetchBlockedIPs P cfg w =
  (inl (fetched P cfg (requests (trace w))),
   {| environ := environ w; blockedIP := blockedIP w;
      trace := trace w ++ match urlParse P (ApiURL cfg) with
                          | Some _ => []
                          | None => [EvRequest (request cfg)]
                          end |}).
Proof.
  unfold fetchBlockedIPs, fetched, NewRequest.
  destruct (urlParse P (ApiURL cfg)) as [err |].
  - cbn. rewrite app_nil_r. destruct w; reflexivity.
  - cbv [bind Do emit ret SetBasicAuth]. cbn [Method URL]. fold (request cfg).
    destruct (roundTrip P _ _) as [err | code status body [err |]]; try reflexivity;
      destruct (code =? 200); reflexivity.
Qed.

Lemma requests_app t1 t2 : requests (t1 ++ t2) = (requests t1 + requests t2)%nat.
Proof. unfold requests. rewrite List.filter_app, length_app. reflexivity. Qed.

Lemma cycle_run cfg w :
  cycle P cfg w =
  let w1 := snd (fetchBlockedIPs P cfg (logged LogScraping w)) in
  match fetched P cfg (requests (trace w)) with
  | inl err => (inl tt, logged (LogScrapeError err) w1)
  | inr body => updateMetrics body w1
  end.
Proof.
  unfold cycle. unfold bind at 1. unfold log at 1, emit. fold (logged LogScraping w).
  unfold bind at 1. rewrite fetchBlockedIPs_run. cbn [fst snd].
  replace (requests (trace (logged LogScraping w))) with (requests (trace w)).
  - cbv zeta. destruct (fetched P cfg _); reflexivity.
  - unfold logged. cbn [trace]. rewrite requests_app. cbn. lia.
Qed.

Lemma cycle_returns cfg w : fst (cycle P cfg w) = inl tt.
Proof.
  rewrite cycle_run. cbv zeta. destruct (fetched P cfg _); [reflexivity |].
  apply updateMetrics_returns.
Qed.

End Runs.

(** ** The claims about the metric store *)

(** C3. For every payload that decodes without error and with [success]
    true, the output rendered after [updateMetrics] holds exactly one
    series per distinct pair (ip, uuid) of [values], each with the
    value 1, and no other series: what an earlier snapshot held and the
    new list does not hold is gone. *)
Theorem published_series body w resp :
  json.Unmarshal body zeroResponse = (resp, None) ->
  Success resp = true ->
  let w' := snd (updateMetrics body w) in
  NoDup (seriesLabels <$> render w')
  /\ forall s, s ∈ render w' <->
               GaugeVec.value s = 1 /\ seriesLabels s ∈ labels <$> Values resp.
Proof.
  intros HU Hs w'. subst w'.
  rewrite updateMetrics_success by (rewrite HU; cbn [fst snd]; auto).
  rewrite HU. cbn [fst snd]. unfold render. cbn [blockedIP]. split.
  - apply NoDup_Collect_labels.
  - intros s. rewrite elem_of_Collect, snapshot_lookup.
    destruct (bool_decide (seriesLabels s ∈ labels <$> Values resp)) eqn:E.
    + apply bool_decide_eq_true in E. split.
      * intros [= <-]. auto.
      * intros [-> _]. reflexivity.
    + apply bool_decide_eq_false in E. split; [discriminate | tauto].
Qed.

Lemma published_series_witness :
  let w' := snd (updateMetrics payloadOne (worldWith [entry2])) in
  NoDup (seriesLabels <$> render w')
  /\ forall s, s ∈ render w' <->
               GaugeVec.value s = 1 /\ seriesLabels s ∈ labels <$> [entry1].
Proof.
  apply (published_series payloadOne (worldWith [entry2])
           {| Success := true; Values := [entry1] |}).
  - vm_compute. reflexivity.
  - reflexivity.
Defined.

(** C9. Replacing the store with the entries [E] twice leaves the same
    rendered output as replacing it once. *)
Theorem replace_idempotent E w :
  render (snd (replace E (snd (replace E w)))) = render (snd (replace E w)).
Proof.
  unfold render.
  destruct (replace_run E w) as (_ & _ & H1 & _).
  destruct (replace_run E (snd (replace E w))) as (_ & _ & H2 & _).
  rewrite H1, H2. reflexivity.
Qed.

(** C2. For every payload whose decoded [success] is false, whatever
    its [values], [updateMetrics] leaves the vector as it was, no
    operation touches it, and [render] returns what it returned
    before; so does the cycle that fetched this payload. *)
Theorem unsuccessful_payload_keeps_store P cfg body w :
  Success (fst (json.Unmarshal body zeroResponse)) = false ->
  (blockedIP (snd (updateMetrics body w)) = blockedIP w
   /\ render (snd (updateMetrics body w)) = render w
   /\ seen (updateMetrics body) w = [blockedIP w])
  /\ (fetched P cfg (requests (trace w)) = inr body ->
      render (snd (cycle P cfg w)) = render w).
Proof.
  intros Hs.
  pose proof (fun w0 => updateMetrics_unpublished body w0 Hs) as Hu.
  split.
  - destruct (Hu w) as [l Hl]. unfold seen, render. rewrite Hl. cbn [snd logged blockedIP trace].
    rewrite drop_app_length. auto.
  - intros Hf. rewrite cycle_run, Hf. cbv zeta.
    destruct (Hu (snd (fetchBlockedIPs P cfg (logged LogScraping w)))) as [l Hl].
    rewrite Hl, fetchBlockedIPs_run. reflexivity.
Qed.

Lemma unsuccessful_payload_keeps_store_witness :
  (blockedIP (snd (updateMetrics payloadFailed (worldWith [entry1]))) = snapshot [entry1]
   /\ render (snd (updateMetrics payloadFailed (worldWith [entry1]))) = render (worldWith [entry1])
   /\ seen (updateMetrics payloadFailed) (worldWith [entry1]) = [snapshot [entry1]])
  /\ (fetched (platformWith (ok200 payloadFailed)) exampleConfig 0 = inr payloadFailed ->
      render (snd (cycle (platformWith (ok200 payloadFailed)) exampleConfig (worldWith [entry1])))
      = render (worldWith [entry1])).
Proof.
  apply (unsuccessful_payload_keeps_store (platformWith (ok200 payloadFailed)) exampleConfig
           payloadFailed (worldWith [entry1])).
  vm_compute. reflexivity.
Defined.

(** C4. For every payload that is not a well-formed encoding of the
    expected structure, decoding fails with an error; [updateMetrics]
    logs it and returns, and the world is as before but for this line:
    the vector is untouched.  The cycle that fetched the payload
    returns to the loop with the vector, and what [render] shows, as
    they were. *)
Theorem malformed_payload_skipped P cfg body w :
  wellFormed body = false ->
  exists e, snd (json.Unmarshal body zeroResponse) = Some e
            /\ updateMetrics body w = (inl tt, logged (LogDecodeError e) w)
            /\ (fetched P cfg (requests (trace w)) = inr body ->
                fst (cycle P cfg w) = inl tt
                /\ blockedIP (snd (cycle P cfg w)) = blockedIP w
                /\ render (snd (cycle P cfg w)) = render w).
Proof.
  intros Hw. rewrite <- (Unmarshal_error body zeroResponse) in Hw.
  destruct (snd (json.Unmarshal body zeroResponse)) as [e |] eqn:He; [| discriminate].
  exists e. split; [reflexivity |]. split.
  - apply updateMetrics_error. exact He.
  - intros Hf. rewrite cycle_run, Hf. cbv zeta.
    rewrite (updateMetrics_error body _ e He), fetchBlockedIPs_run. auto.
Qed.

Lemma malformed_payload_skipped_witness :
  exists e, snd (json.Unmarshal payloadTruncated zeroResponse) = Some e
            /\ updateMetrics payloadTruncated (worldWith [entry1])
               = (inl tt, logged (LogDecodeError e) (worldWith [entry1]))
            /\ (fetched (platformWith (ok200 payloadTruncated)) exampleConfig
                  (requests (trace (worldWith [entry1]))) = inr payloadTruncated ->
                fst (cycle (platformWith (ok200 payloadTruncated)) exampleConfig
                       (worldWith [entry1])) = inl tt
                /\ blockedIP (snd (cycle (platformWith (ok200 payloadTruncated)) exampleConfig
                                     (worldWith [entry1])))
                   = blockedIP (worldWith [entry1])
                /\ render (snd (cycle (platformWith (ok200 payloadTruncated)) exampleConfig
                                  (worldWith [entry1])))
                   = render (worldWith [entry1])).
Proof.
  apply (malformed_payload_skipped (platformWith (ok200 payloadTruncated)) exampleConfig
           payloadTruncated (worldWith [entry1])).
  vm_compute. reflexivity.
Defined.

(** C10, as stated, fails.  The payload [{"values":3}] is valid JSON
    without a member [success], and decoding it fails with a type
    error.  The payload [{"Success":true,"values":[...]}] has no member
    named [success] either, yet it sets the field [Success], and the
    vector is replaced. *)
Lemma absent_success_counterexample :
  (json.parse payloadValuesNumber = Some (json.Object [("values", json.Number "3")])
   /\ noSuccessMember (json.Object [("values", json.Number "3")]) = true
   /\ snd (json.Unmarshal payloadValuesNumber zeroResponse)
      = Some (json.UnmarshalTypeError "number" "[]main.BlockedValue"))
  /\ (exists v, json.parse payloadUpperCase = Some v
                /\ noSuccessMember v = true
                /\ blockedIP (snd (updateMetrics payloadUpperCase (worldWith [entry1])))
                   <> blockedIP (worldWith [entry1])).
Proof.
  split.
  - repeat split; vm_compute; reflexivity.
  - eexists. split; [vm_compute; reflexivity |]. split; [vm_compute; reflexivity |].
    intros H. apply (f_equal (fun m : GaugeVec.Store => m !! labels entry1)) in H.
    vm_compute in H. discriminate.
Qed.

(** C10, amended.  For every valid JSON payload in which no member
    denotes the field [Success] (none is named [success], in whatever
    case), the decoded [success] is false and [updateMetrics] leaves the
    vector as it was; when the payload is moreover a well-formed
    encoding of the rest of the structure, decoding returns no error
    and the cycle takes the not-successful branch. *)
Theorem absent_success_not_published body v w :
  json.parse body = Some v ->
  successAbsent v = true ->
  Success (fst (json.Unmarshal body zeroResponse)) = false
  /\ blockedIP (snd (updateMetrics body w)) = blockedIP w
  /\ (isResponse v = true ->
      snd (json.Unmarshal body zeroResponse) = None
      /\ updateMetrics body w = (inl tt, logged LogNotSuccessful w)).
Proof.
  intros Hp Ha.
  pose proof (Unmarshal_successAbsent body v Hp Ha) as Hs.
  split; [exact Hs |]. split.
  - destruct (updateMetrics_unpublished body w Hs) as [l ->]. reflexivity.
  - intros Hr.
    assert (He : snd (json.Unmarshal body zeroResponse) = None).
    { pose proof (Unmarshal_error body zeroResponse) as H.
      unfold wellFormed in H. rewrite Hp, Hr in H.
      destruct (snd (json.Unmarshal body zeroResponse)); [discriminate | reflexivity]. }
    split; [exact He |]. apply updateMetrics_unsuccessful; assumption.
Qed.

Lemma absent_success_not_published_witness :
  Success (fst (json.Unmarshal payloadNoSuccess zeroResponse)) = false
  /\ blockedIP (snd (updateMetrics payloadNoSuccess (worldWith [entry1])))
     = blockedIP (worldWith [entry1])
  /\ (isResponse (json.Object [("values",
                     json.Array [json.Object [("uuid", json.Str "u2");
                                              ("ip", json.Str "5.6.7.8")]])]) = true ->
      snd (json.Unmarshal payloadNoSuccess zeroResponse) = None
      /\ updateMetrics payloadNoSuccess (worldWith [entry1])
         = (inl tt, logged LogNotSuccessful (worldWith [entry1]))).
Proof.
  apply (absent_success_not_published payloadNoSuccess _ (worldWith [entry1])).
  - vm_compute. reflexivity.
  - vm_compute. reflexivity.
Defined.

(** ** What a concurrent scrape can see *)

Lemma metricsOf_app t1 t2 : metricsOf (t1 ++ t2) = metricsOf t1 ++ metricsOf t2.
Proof.
  induction t1 as [| e t1 IH]; [reflexivity |].
  destruct e; cbn; rewrite IH; reflexivity.
Qed.

Lemma metricsOf_fmap l : metricsOf (EvMetrics <$> l) = l.
Proof. induction l as [| m l IH]; cbn; [| rewrite IH]; reflexivity. Qed.

(** C1, as stated, fails.  With the entry u1 published, the payload
    that publishes the entry u2 in its place passes through the empty
    vector: a scrape at that moment sees neither the old snapshot nor
    the new one. *)
Lemma torn_read_counterexample :
  exists s, s ∈ seen (updateMetrics payloadTwo) (worldWith [entry1])
            /\ s <> blockedIP (worldWith [entry1])
            /\ s <> blockedIP (snd (updateMetrics payloadTwo (worldWith [entry1]))).
Proof.
  exists ∅. split; [| split].
  - unfold seen. rewrite updateMetrics_success by (vm_compute; reflexivity).
    cbn [snd trace]. rewrite drop_app_length, metricsOf_app, metricsOf_fmap.
    apply list_elem_of_further, elem_of_app. left. apply list_elem_of_here.
  - intros H. apply (f_equal (fun m : GaugeVec.Store => m !! labels entry1)) in H.
    vm_compute in H. discriminate.
  - intros H. apply (f_equal (fun m : GaugeVec.Store => m !! labels entry2)) in H.
    vm_compute in H. discriminate.
Qed.

(** C1, amended.  While [updateMetrics] runs on a payload, a scrape
    sees the old snapshot, or the vector on its way from empty to the
    new snapshot: the snapshot of a prefix of the new entries (none of
    them, some, or all), with the gauge of the next entry possibly
    made and still at 0. *)
Theorem replace_observations body w :
  Forall (fun s => s = blockedIP w
                   \/ onTheWay (Values (fst (json.Unmarshal body zeroResponse))) s)
    (seen (updateMetrics body) w).
Proof.
  unfold seen. apply Forall_cons. split; [left; reflexivity |].
  destruct (Success (fst (json.Unmarshal body zeroResponse))) eqn:Hs.
  - destruct (snd (json.Unmarshal body zeroResponse)) as [e |] eqn:He.
    { rewrite (updateMetrics_error body w e He). cbn [snd logged trace].
      rewrite drop_app_length. constructor. }
    rewrite updateMetrics_success by assumption. cbn [snd trace].
    rewrite drop_app_length, metricsOf_app, metricsOf_fmap. cbn [metricsOf].
    rewrite app_nil_r. apply Forall_cons. split.
    + right. exists 0%nat. split; [lia |]. left. reflexivity.
    + apply Forall_forall. intros s Hin. right.
      change ∅ with (snapshot []) in Hin.
      apply fillSteps_snapshot in Hin. exact Hin.
  - destruct (updateMetrics_unpublished body w Hs) as [l ->]. cbn [snd logged trace].
    rewrite drop_app_length. constructor.
Qed.

(** ** Configuration *)

Lemma environ_afterDotenv P w : environ (afterDotenv P w) = effectiveEnv P w.
Proof. unfold afterDotenv, effectiveEnv. destruct (dotenv P); reflexivity. Qed.

Lemma loadConfig_run P w :
  let env := effectiveEnv P w in
  loadConfig P w =
  (inl (if String.eqb (Getenv env "EXPORTER_API_URL") ""
           || String.eqb (Getenv env "EXPORTER_USER") ""
           || String.eqb (Getenv env "EXPORTER_PASSWORD") ""
        then inl ErrMissingEnv
        else inr {| ApiURL := Getenv env "EXPORTER_API_URL";
                    User := Getenv env "EXPORTER_USER";
                    Password := Getenv env "EXPORTER_PASSWORD";
                    Port := if String.eqb (Getenv env "EXPORTER_PORT") "" then ":9898"
                            else Getenv env "EXPORTER_PORT";
                    ScrapeInterval :=
                      time.seconds
                        (intervalSeconds (Getenv env "EXPORTER_SCRAPE_INTERVAL_SECONDS")) |}),
   afterDotenv P w).
Proof.
  cbv zeta. rewrite <- environ_afterDotenv.
  unfold loadConfig, afterDotenv, intervalSeconds.
  destruct (dotenv P) as [err | file];
    cbv [bind log emit getEnviron setEnviron ret logged]; cbn [environ ApiURL User Password Port];
    match goal with
    | |- context [if ?b then inl ErrMissingEnv else _] => destruct b
    | |- context [if ?b then ret _ else _] => destruct b
    | _ => idtac
    end.
  all: try reflexivity.
  all: destruct (strconv.Atoi _); reflexivity.
Qed.

Lemma eqb_missing env k : String.eqb (Getenv env k) "" = true <-> missing env k.
Proof. unfold missing. apply String.eqb_eq. Qed.

(** C6. [loadConfig] fails if and only if one of the API URL, the user
    name and the password is missing, and [main] then exits with
    status 1; with the three of them it returns their values, and the
    listen address [:9898] when the port variable is missing. *)
Theorem loadConfig_required P w :
  let env := effectiveEnv P w in
  let required := missing env "EXPORTER_API_URL"
                  \/ missing env "EXPORTER_USER"
                  \/ missing env "EXPORTER_PASSWORD" in
  match fst (loadConfig P w) with
  | inl (inl err) =>
      required /\ err = ErrMissingEnv /\ fst (main P w) = inr (Exit 1)
  | inl (inr cfg) =>
      ~ required
      /\ ApiURL cfg = Getenv env "EXPORTER_API_URL"
      /\ User cfg = Getenv env "EXPORTER_USER"
      /\ Password cfg = Getenv env "EXPORTER_PASSWORD"
      /\ (missing env "EXPORTER_PORT" -> Port cfg = ":9898")
      /\ (~ missing env "EXPORTER_PORT" -> Port cfg = Getenv env "EXPORTER_PORT")
  | inr _ => False
  end.
Proof.
  cbv zeta. unfold main, bind. rewrite loadConfig_run. cbv zeta. cbn [fst].
  destruct (_ || _) eqn:E.
  - repeat split.
    apply orb_true_iff in E as [E | E]; [apply orb_true_iff in E as [E | E] |];
      apply eqb_missing in E; tauto.
  - apply orb_false_iff in E as [E E3]. apply orb_false_iff in E as [E1 E2].
    cbn [ApiURL User Password Port]. repeat split.
    + intros [H | [H | H]]; apply eqb_missing in H; congruence.
    + intros H. apply eqb_missing in H. rewrite H. reflexivity.
    + intros H.
      destruct (String.eqb (Getenv (effectiveEnv P w) "EXPORTER_PORT") "") eqn:E4;
        [| reflexivity].
      apply eqb_missing in E4. tauto.
Qed.

(** ** The scrape interval *)

(** The text of a positive number of seconds up to 9223372036 gives
    that interval. *)
Lemma interval_in_range s n :
  strconv.Atoi s = (n, None) -> 0 < n <= 9223372036 ->
  time.seconds (intervalSeconds s) = n * time.Second /\ 0 < time.seconds (intervalSeconds s).
Proof.
  intros HA Hn. unfold intervalSeconds. rewrite HA.
  rewrite bool_decide_eq_false_2 by (intros H; apply H; reflexivity).
  destruct (Z.leb_spec n 0); [lia |]. cbn [orb].
  unfold time.seconds, time.wrap64, time.Second.
  rewrite Z.mod_small by lia. lia.
Qed.

(** A text that [Atoi] refuses, and a number that is not positive, give
    the default of 60 seconds. *)
Lemma interval_default s :
  (snd (strconv.Atoi s) <> None \/ fst (strconv.Atoi s) <= 0) ->
  time.seconds (intervalSeconds s) = 60 * time.Second.
Proof.
  intros H. unfold intervalSeconds. destruct (strconv.Atoi s) as [n err]. cbn [fst snd] in H.
  destruct H as [H | H].
  - rewrite bool_decide_eq_true_2 by exact H. reflexivity.
  - destruct (Z.leb_spec n 0); [| lia]. rewrite orb_true_r. reflexivity.
Qed.

(** C5 fails on the code for the texts of the numbers from 9223372037
    on, which [Atoi] accepts: the multiplication by [time.Second]
    overflows the [int64].  With 9223372037 seconds the interval of the
    configuration is negative, and [time.NewTicker] panics on it. *)
Theorem scrape_interval_overflow :
  let P := platformWith (ok200 payloadOne) in
  let w := startWorld (exampleEnv "9223372037") in
  strconv.Atoi "9223372037" = (9223372037, None)
  /\ exists cfg,
       fst (loadConfig P w) = inl (inr cfg)
       /\ ScrapeInterval cfg = -9223372036709551616
       /\ fst (startScrapingLoop P 1 cfg w)
          = inr (Panic "non-positive interval for NewTicker").
Proof.
  cbv zeta. split; [vm_compute; reflexivity |].
  eexists. split; [vm_compute; reflexivity |]. split; vm_compute; reflexivity.
Qed.

(** ** Fetching *)

(** C7. [fetchBlockedIPs] returns an error when the transport fails,
    the unexpected-status error with the code when the status is not
    200, an error when the body cannot be read to its end, and the
    bytes of the body only in the case that is left; it calls
    [httpClient.Do] once at most, returns to its caller, and does not
    touch the vector. *)
Theorem fetch_outcomes P cfg w :
  let r := fetchBlockedIPs P cfg w in
  let n := requests (trace w) in
  (requests (trace (snd r)) <= n + 1)%nat
  /\ blockedIP (snd r) = blockedIP w
  /\ (exists res, fst r = inl res)
  /\ (forall err, urlParse P (ApiURL cfg) = Some err ->
        fst r = inl (inl (ErrCreatingRequest err)) /\ trace (snd r) = trace w)
  /\ (urlParse P (ApiURL cfg) = None ->
        trace (snd r) = trace w ++ [EvRequest (request cfg)])
  /\ (forall err, urlParse P (ApiURL cfg) = None ->
        roundTrip P n (request cfg) = TransportError err ->
        fst r = inl (inl (ErrMakingRequest err)))
  /\ (forall code status body readErr, urlParse P (ApiURL cfg) = None ->
        roundTrip P n (request cfg) = Response code status body readErr ->
        code <> 200 ->
        fst r = inl (inl (ErrUnexpectedStatus code status)))
  /\ (forall status body err, urlParse P (ApiURL cfg) = None ->
        roundTrip P n (request cfg) = Response 200 status body (Some err) ->
        fst r = inl (inl (ErrReadingBody err)))
  /\ (forall body, fst r = inl (inr body) <->
        urlParse P (ApiURL cfg) = None
        /\ exists status, roundTrip P n (request cfg) = Response 200 status body None).
Proof.
  cbv zeta. rewrite fetchBlockedIPs_run. cbn [fst snd trace blockedIP]. unfold fetched.
  split; [| split; [reflexivity |]].
  { rewrite requests_app. destruct (urlParse P (ApiURL cfg)); cbn; lia. }
  split; [eauto |].
  split.
  { intros err ->. rewrite app_nil_r. auto. }
  split.
  { intros ->. reflexivity. }
  split.
  { intros err -> ->. reflexivity. }
  split.
  { intros code status body readErr -> -> Hc.
    destruct (Z.eqb_spec code 200); [tauto | reflexivity]. }
  split.
  { intros status body err -> ->. reflexivity. }
  intros body. split.
  - destruct (urlParse P (ApiURL cfg)); [discriminate |].
    destruct (roundTrip P _ _) as [err | code status b [err |]]; try discriminate;
      destruct (Z.eqb_spec code 200); try discriminate.
    intros [= ->]. subst code. eauto.
  - intros [-> [status ->]]. reflexivity.
Qed.

(** ** The scrape loop *)


Lemma added_app {A} (c : M A) w t :
  trace (snd (c w)) = trace w ++ t -> added c w = t.
Proof. unfold added. intros ->. apply drop_app_length. Qed.

Lemma Forall_quiet_metrics l : Forall quiet (EvMetrics <$> l).
Proof. apply Forall_fmap, Forall_forall. intros m _. split; reflexivity. Qed.

Lemma updateMetrics_trace body w :
  exists t, trace (snd (updateMetrics body w)) = trace w ++ t /\ Forall quiet t.
Proof.
  destruct (snd (json.Unmarshal body zeroResponse)) as [e |] eqn:He.
  { rewrite (updateMetrics_error body w e He). eexists. split; [reflexivity |].
    repeat constructor. }
  destruct (Success (fst (json.Unmarshal body zeroResponse))) eqn:Hs.
  - rewrite updateMetrics_success by assumption. eexists. split; [reflexivity |].
    apply Forall_app. split; [apply Forall_quiet_metrics | repeat constructor].
  - rewrite updateMetrics_unsuccessful by assumption.
    eexists. split; [reflexivity |]. repeat constructor.
Qed.

Lemma cycle_trace P cfg w :
  exists t, trace (snd (cycle P cfg w)) = trace w ++ EvLog LogScraping :: t
            /\ Forall quiet t.
Proof.
  rewrite cycle_run. cbv zeta. rewrite fetchBlockedIPs_run. cbn [snd].
  assert (Hq : Forall quiet match urlParse P (ApiURL cfg) with
                            | Some _ => []
                            | None => [EvRequest (request cfg)]
                            end).
  { destruct (urlParse P (ApiURL cfg)); repeat constructor. }
  destruct (fetched P cfg _) as [err | body].
  - cbn [snd logged trace]. eexists. split.
    + rewrite <- !app_assoc. cbn [app]. reflexivity.
    + apply Forall_app. split; [exact Hq | repeat constructor].
  - match goal with |- context [updateMetrics body ?w1] =>
      destruct (updateMetrics_trace body w1) as (t & Ht & Hqt)
    end.
    rewrite Ht. cbn [trace logged]. eexists. split.
    + rewrite <- !app_assoc. cbn [app]. reflexivity.
    + apply Forall_app. split; assumption.
Qed.

Lemma count_quiet t :
  Forall quiet t ->
  length (List.filter isScraping t) = 0%nat /\ length (List.filter isTick t) = 0%nat.
Proof.
  induction 1 as [| e t [H1 H2] _ [IH1 IH2]]; [split; reflexivity |].
  cbn. rewrite H1, H2. auto.
Qed.

Lemma scrapingLoop_succ P n cfg w :
  scrapingLoop P (S n) cfg w =
  match cycle P cfg w with
  | (inl _, w1) => scrapingLoop P n cfg (ticked w1)
  | (inr h, w1) => (inr h, w1)
  end.
Proof.
  cbn [scrapingLoop]. unfold bind at 1. destruct (cycle P cfg w) as [[[] | h] w1]; reflexivity.
Qed.

Lemma scrapingLoop_run P cfg n : forall w,
  fst (scrapingLoop P n cfg w) = inl tt
  /\ exists t, trace (snd (scrapingLoop P n cfg w)) = trace w ++ t
               /\ length (List.filter isScraping t) = n
               /\ length (List.filter isTick t) = n.
Proof.
  induction n as [| n IH]; intros w.
  - split; [reflexivity |]. exists []. cbn. rewrite app_nil_r. auto.
  - rewrite scrapingLoop_succ.
    pose proof (cycle_returns P cfg w) as Hr.
    destruct (cycle_trace P cfg w) as (t & Ht & Hq).
    destruct (cycle P cfg w) as [r w1]. cbn [fst snd] in *. subst r.
    destruct (IH (ticked w1)) as (Hok & t' & Ht' & Hs & Hk).
    split; [exact Hok |].
    exists ((EvLog LogScraping :: t) ++ EvTick :: t'). split.
    + rewrite Ht'. cbn [ticked trace]. rewrite Ht, <- !app_assoc. reflexivity.
    + destruct (count_quiet t Hq) as [Q1 Q2].
      rewrite !List.filter_app, !length_app. cbn. rewrite Q1, Q2, Hs, Hk. lia.
Qed.

Lemma startScrapingLoop_unfold P n cfg w :
  0 < ScrapeInterval cfg ->
  startScrapingLoop P n cfg w =
  scrapingLoop P n cfg (tickerStarted cfg w).
Proof.
  intros H. unfold startScrapingLoop, NewTicker, bind.
  destruct (Z.leb_spec (ScrapeInterval cfg) 0); [lia | reflexivity].
Qed.

Lemma startScrapingLoop_panics P n cfg w :
  ScrapeInterval cfg <= 0 ->
  startScrapingLoop P n cfg w = (inr (Panic "non-positive interval for NewTicker"), w).
Proof.
  intros H. unfold startScrapingLoop, NewTicker, bind, halt.
  destruct (Z.leb_spec (ScrapeInterval cfg) 0); [reflexivity | lia].
Qed.

Lemma scrapingLoop_next P cfg n w :
  scrapingLoop P (S n) cfg w = scrapingLoop P n cfg (ticked (snd (cycle P cfg w))).
Proof.
  rewrite scrapingLoop_succ.
  pose proof (cycle_returns P cfg w) as Hr.
  destruct (cycle P cfg w) as [[[] | h] w2]; [reflexivity | discriminate].
Qed.

Lemma added_startScrapingLoop P cfg n w :
  0 < ScrapeInterval cfg ->
  added (startScrapingLoop P n cfg) w
  = EvNewTicker (ScrapeInterval cfg) :: added (scrapingLoop P n cfg) (tickerStarted cfg w).
Proof.
  intros Hd. unfold added. rewrite startScrapingLoop_unfold by exact Hd.
  destruct (scrapingLoop_run P cfg n (tickerStarted cfg w)) as (_ & t & Ht & _).
  rewrite Ht, drop_app_length. cbn [tickerStarted trace].
  rewrite <- app_assoc, drop_app_length. reflexivity.
Qed.

Lemma added_scrapingLoop_next P cfg n w :
  added (scrapingLoop P (S n) cfg) w
  = added (cycle P cfg) w
      ++ EvTick :: added (scrapingLoop P n cfg) (ticked (snd (cycle P cfg w))).
Proof.
  unfold added. rewrite scrapingLoop_next.
  destruct (cycle_trace P cfg w) as (t & Ht & _).
  destruct (scrapingLoop_run P cfg n (ticked (snd (cycle P cfg w)))) as (_ & t' & Ht' & _).
  rewrite Ht', drop_app_length. cbn [ticked trace]. rewrite Ht, drop_app_length.
  rewrite <- !app_assoc, drop_app_length. reflexivity.
Qed.

(** X19. With a positive interval, the loop runs its first cycle at
    once: after the ticker is made, the events of the first cycle come
    before the first tick, and they start with the line that opens the
    cycle.  However the cycles end, the loop goes on: watched for [n]
    iterations it has not halted the process and has run [n] cycles
    and waited for [n] ticks, each cycle being followed by the wait for
    the next tick and then by the next cycle.  A cycle whose fetch
    fails logs the error, a cycle whose payload does not decode logs
    the decode error, and both leave the vector as it was. *)
Theorem scraping_loop_runs P cfg w :
  0 < ScrapeInterval cfg ->
  let w0 := tickerStarted cfg w in
  (forall n, exists t,
      added (startScrapingLoop P (S n) cfg) w
      = EvNewTicker (ScrapeInterval cfg) :: added (cycle P cfg) w0 ++ EvTick :: t)
  /\ (exists t, added (cycle P cfg) w0 = EvLog LogScraping :: t /\ Forall quiet t)
  /\ (forall n,
        fst (startScrapingLoop P n cfg w) = inl tt
        /\ length (List.filter isScraping (added (startScrapingLoop P n cfg) w)) = n
        /\ length (List.filter isTick (added (startScrapingLoop P n cfg) w)) = n)
  /\ (forall n w1,
        scrapingLoop P (S n) cfg w1 = scrapingLoop P n cfg (ticked (snd (cycle P cfg w1))))
  /\ (forall w1,
        fst (cycle P cfg w1) = inl tt
        /\ (forall err, fetched P cfg (requests (trace w1)) = inl err ->
              blockedIP (snd (cycle P cfg w1)) = blockedIP w1
              /\ exists t, added (cycle P cfg) w1 = t ++ [EvLog (LogScrapeError err)])
        /\ (forall body e, fetched P cfg (requests (trace w1)) = inr body ->
              snd (json.Unmarshal body zeroResponse) = Some e ->
              blockedIP (snd (cycle P cfg w1)) = blockedIP w1
              /\ exists t, added (cycle P cfg) w1 = t ++ [EvLog (LogDecodeError e)])).
Proof.
  intros Hd w0.
  split; [| split; [| split; [| split; [intros; apply scrapingLoop_next |]]]].
  - intros n. rewrite added_startScrapingLoop by exact Hd. fold w0.
    rewrite added_scrapingLoop_next. eauto.
  - destruct (cycle_trace P cfg w0) as (t & Ht & Hq).
    exists t. split; [| exact Hq]. apply added_app. exact Ht.
  - intros n. rewrite added_startScrapingLoop by exact Hd.
    rewrite startScrapingLoop_unfold by exact Hd. fold w0.
    destruct (scrapingLoop_run P cfg n w0) as (Hok & t & Ht & Hs & Hk).
    split; [exact Hok |].
    rewrite (added_app _ _ _ Ht). cbn [List.filter isScraping isTick]. auto.
  - intros w1. split; [apply cycle_returns |]. split.
    + intros err Hf.
      assert (Hc : snd (cycle P cfg w1)
                   = logged (LogScrapeError err)
                       (snd (fetchBlockedIPs P cfg (logged LogScraping w1)))).
      { rewrite cycle_run, Hf. reflexivity. }
      rewrite fetchBlockedIPs_run in Hc. cbn [snd logged blockedIP trace] in Hc.
      split; [rewrite Hc; reflexivity |].
      exists (EvLog LogScraping :: match urlParse P (ApiURL cfg) with
                                   | Some _ => []
                                   | None => [EvRequest (request cfg)]
                                   end).
      apply added_app. rewrite Hc. unfold logged. cbn [trace].
      rewrite <- !app_assoc. reflexivity.
    + intros body e Hf He.
      assert (Hc : snd (cycle P cfg w1)
                   = logged (LogDecodeError e)
                       (snd (fetchBlockedIPs P cfg (logged LogScraping w1)))).
      { rewrite cycle_run, Hf. cbv zeta. rewrite (updateMetrics_error body _ e He).
        reflexivity. }
      rewrite fetchBlockedIPs_run in Hc. cbn [snd logged blockedIP trace] in Hc.
      split; [rewrite Hc; reflexivity |].
      exists (EvLog LogScraping :: match urlParse P (ApiURL cfg) with
                                   | Some _ => []
                                   | None => [EvRequest (request cfg)]
                                   end).
      apply added_app. rewrite Hc. unfold logged. cbn [trace].
      rewrite <- !app_assoc. reflexivity.
Qed.

Lemma scraping_loop_runs_witness :
  0 < ScrapeInterval exampleConfig
  /\ forall n,
       fst (startScrapingLoop (platformWith (TransportError "connection refused")) n
              exampleConfig (worldWith [entry1])) = inl tt.
Proof.
  split; [reflexivity |].
  intros n.
  apply (scraping_loop_runs (platformWith (TransportError "connection refused"))
           exampleConfig (worldWith [entry1])).
  reflexivity.
Defined.

(** C8 fails on the code for a configuration whose interval is not
    positive, and [loadConfig] returns one for an interval of
    9223372037 seconds, by the overflow of C5.  [startScrapingLoop]
    starts with [time.NewTicker], which panics on such an interval:
    the loop halts the process before its first cycle, without a step,
    for however many iterations it is watched and in whatever world it
    starts. *)
Theorem scraping_loop_overflow :
  let P := platformWith (ok200 payloadOne) in
  let w := startWorld (exampleEnv "9223372037") in
  exists cfg,
    fst (loadConfig P w) = inl (inr cfg)
    /\ ScrapeInterval cfg <= 0
    /\ forall n w1,
         startScrapingLoop P n cfg w1
         = (inr (Panic "non-positive interval for NewTicker"), w1).
Proof.
  cbv zeta. eexists. split; [vm_compute; reflexivity |].
  assert (H : -9223372036709551616 <= 0) by lia.
  split; [exact H |]. intros n w1. apply startScrapingLoop_panics. exact H.
Qed.

(** ** Runs of the program on concrete inputs *)

(** A payload with one entry is published as one series at 1. *)
Example run_one_entry :
  render (snd (updateMetrics payloadOne (worldWith [])))
  = [{| GaugeVec.ip := "1.2.3.4"; GaugeVec.uuid := "u1"; GaugeVec.value := 1 |}].
Proof. vm_compute. reflexivity. Qed.

(** A payload with [success] false leaves the series of the prior
    snapshot and one line in the log. *)
Example run_not_successful :
  render (snd (updateMetrics payloadFailed (worldWith [entry1])))
  = [{| GaugeVec.ip := "1.2.3.4"; GaugeVec.uuid := "u1"; GaugeVec.value := 1 |}]
  /\ trace (snd (updateMetrics payloadFailed (worldWith [entry1]))) = [EvLog LogNotSuccessful].
Proof. split; vm_compute; reflexivity. Qed.

(** An upstream that answers 500: the cycle logs the status error and
    the series stay. *)
Example run_status_500 :
  let P := platformWith (Response 500 "500 Internal Server Error" "" None) in
  render (snd (cycle P exampleConfig (worldWith [entry1])))
  = [{| GaugeVec.ip := "1.2.3.4"; GaugeVec.uuid := "u1"; GaugeVec.value := 1 |}]
  /\ trace (snd (cycle P exampleConfig (worldWith [entry1])))
     = [EvLog LogScraping; EvRequest (request exampleConfig);
        EvLog (LogScrapeError (ErrUnexpectedStatus 500 "500 Internal Server Error"))].
Proof. split; vm_compute; reflexivity. Qed.

(** Before the first successful scrape there is no series. *)
Example run_nothing_scraped : render (startWorld (exampleEnv "60")) = [].
Proof. vm_compute. reflexivity. Qed.

(** The decoder on members in another case, on [null] and on members
    that come twice. *)
Example run_decode_fold :
  json.Unmarshal (js "{'SUCCESS':true,'Values':[{'UUID':'a','Ip':'b','x':[1,{}]},null]}")
    zeroResponse
  = ({| Success := true;
        Values := [{| UUID := "a"; IP := "b" |}; {| UUID := ""; IP := "" |}] |}, None).
Proof. vm_compute. reflexivity. Qed.

Example run_decode_twice :
  json.Unmarshal (js "{'values':[{'uuid':'a','ip':'b'}],'values':[{'uuid':'c'}]}") zeroResponse
  = ({| Success := false; Values := [{| UUID := "c"; IP := "b" |}] |}, None).
Proof. vm_compute. reflexivity. Qed.

(** A lone surrogate escape and a stray byte become U+FFFD. *)
Example run_unquote_coerces :
  json.unquote "a\ud83dz" = Some (String.append "a" (String.append (utf8.EncodeRune 0xFFFD) "z"))
  /\ json.unquote (String (chr 0xC3) "(") = Some (String.append (utf8.EncodeRune 0xFFFD) "(").
Proof. split; vm_compute; reflexivity. Qed.

Example run_Atoi :
  strconv.Atoi "+15" = (15, None)
  /\ strconv.Atoi "1_000" = (0, Some strconv.ErrSyntax)
  /\ strconv.Atoi "" = (0, Some strconv.ErrSyntax)
  /\ strconv.Atoi "9223372036854775808" = (9223372036854775807, Some strconv.ErrRange).
Proof. repeat split; vm_compute; reflexivity. Qed.

(** Three iterations of the loop on an upstream that refuses the
    connection: the process goes on. *)
Example run_loop_refused :
  let P := platformWith (TransportError "connection refused") in
  let r := startScrapingLoop P 3 exampleConfig (worldWith [entry1]) in
  fst r = inl tt
  /\ length (List.filter isRequest (trace (snd r))) = 3%nat
  /\ render (snd r)
     = [{| GaugeVec.ip := "1.2.3.4"; GaugeVec.uuid := "u1"; GaugeVec.value := 1 |}].
Proof. repeat split; vm_compute; reflexivity. Qed.

(** A payload without [values] is well formed for the decoder: the
    field keeps its zero value, and the vector is emptied. *)
Example run_missing_values :
  wellFormed payloadNoValues = true
  /\ json.Unmarshal payloadNoValues zeroResponse = ({| Success := true; Values := [] |}, None)
  /\ render (snd (updateMetrics payloadNoValues (worldWith [entry1]))) = [].
Proof. repeat split; vm_compute; reflexivity. Qed.

(** * Further properties of the program *)

(** ** What [updateMetrics] publishes *)

(** X1. [updateMetrics] returns to its caller on every body: the label
    values that it hands to [With] come out of the decoder and are
    valid UTF-8, so [With] never panics. *)
Theorem no_payload_panics body w :
  fst (updateMetrics body w) = inl tt
  /\ forallb labels_valid (Values (fst (json.Unmarshal body zeroResponse))) = true
  /\ environ (snd (updateMetrics body w)) = environ w.
Proof.
  split; [apply updateMetrics_returns |]. split; [apply Unmarshal_valid; reflexivity |].
  destruct (snd (json.Unmarshal body zeroResponse)) as [e |] eqn:He.
  { rewrite (updateMetrics_error body w e He). reflexivity. }
  destruct (Success (fst (json.Unmarshal body zeroResponse))) eqn:Hs.
  - rewrite updateMetrics_success by assumption. reflexivity.
  - rewrite updateMetrics_unsuccessful by assumption. reflexivity.
Qed.

Lemma snapshot_ext (vs1 vs2 : list BlockedValue) :
  labels <$> vs1 ⊆ labels <$> vs2 -> labels <$> vs2 ⊆ labels <$> vs1 ->
  snapshot vs1 = snapshot vs2.
Proof.
  intros H1 H2. apply map_eq. intros k. rewrite !snapshot_lookup.
  destruct (bool_decide (k ∈ labels <$> vs1)) eqn:E1;
    destruct (bool_decide (k ∈ labels <$> vs2)) eqn:E2; try reflexivity.
  - apply bool_decide_eq_true in E1. apply bool_decide_eq_false in E2.
    exfalso. apply E2, H1, E1.
  - apply bool_decide_eq_false in E1. apply bool_decide_eq_true in E2.
    exfalso. apply E1, H2, E2.
Qed.

(** X3. What is rendered after a successful update depends on the set
    of label pairs of the payload only: not on the order of the
    entries, not on their repetition, and not on what the vector held
    before. *)
Theorem same_entries_same_render b1 b2 w1 w2 r1 r2 :
  json.Unmarshal b1 zeroResponse = (r1, None) -> Success r1 = true ->
  json.Unmarshal b2 zeroResponse = (r2, None) -> Success r2 = true ->
  labels <$> Values r1 ⊆ labels <$> Values r2 ->
  labels <$> Values r2 ⊆ labels <$> Values r1 ->
  render (snd (updateMetrics b1 w1)) = render (snd (updateMetrics b2 w2)).
Proof.
  intros U1 S1 U2 S2 H12 H21. unfold render.
  rewrite !updateMetrics_success by (rewrite ?U1, ?U2; cbn [fst snd]; auto).
  rewrite U1, U2. cbn [fst snd blockedIP]. rewrite (snapshot_ext _ _ H12 H21). reflexivity.
Qed.

Lemma same_entries_same_render_witness :
  render (snd (updateMetrics payloadPair (worldWith [])))
  = render (snd (updateMetrics payloadPairAgain (worldWith [entry1]))).
Proof.
  apply (same_entries_same_render payloadPair payloadPairAgain
           (worldWith []) (worldWith [entry1])
           {| Success := true; Values := [entry1; entry2] |}
           {| Success := true; Values := [entry2; entry1; entry2] |}).
  - vm_compute. reflexivity.
  - reflexivity.
  - vm_compute. reflexivity.
  - reflexivity.
  - apply (bool_decide_unpack _). vm_compute. exact I.
  - apply (bool_decide_unpack _). vm_compute. exact I.
Defined.

Lemma snapshot_keys (vs : list BlockedValue) k :
  k ∈ (map_to_list (snapshot vs)).*1 <-> k ∈ labels <$> vs.
Proof.
  rewrite list_elem_of_fmap. split.
  - intros ([k' x] & -> & H). apply elem_of_map_to_list in H.
    rewrite snapshot_lookup in H. cbn.
    destruct (bool_decide (k' ∈ labels <$> vs)) eqn:E; [| discriminate].
    apply bool_decide_eq_true in E. exact E.
  - intros H. exists (k, 1). split; [reflexivity |].
    apply elem_of_map_to_list. rewrite snapshot_lookup.
    rewrite bool_decide_eq_true_2 by exact H. reflexivity.
Qed.

(** X4. The line that [updateMetrics] logs after a successful update
    counts the entries of the payload.  The series that it has
    published are no more than that, and as many when no pair of
    label values comes twice. *)
Theorem found_counts_entries body w resp :
  json.Unmarshal body zeroResponse = (resp, None) ->
  Success resp = true ->
  let w' := snd (updateMetrics body w) in
  last (trace w') = Some (EvLog (LogUpdated (length (Values resp))))
  /\ (length (render w') <= length (Values resp))%nat
  /\ (NoDup (labels <$> Values resp) -> length (render w') = length (Values resp)).
Proof.
  intros HU Hs w'. subst w'.
  rewrite updateMetrics_success by (rewrite HU; cbn [fst snd]; auto).
  rewrite HU. cbn [fst snd trace]. unfold render. cbn [blockedIP].
  assert (Hlen : length (GaugeVec.Collect (snapshot (Values resp)))
                 = length ((map_to_list (snapshot (Values resp))).*1)).
  { unfold GaugeVec.Collect. rewrite !length_fmap. reflexivity. }
  split; [| split].
  - rewrite app_assoc. apply last_snoc.
  - rewrite Hlen, <- (length_fmap labels (Values resp)).
    apply submseteq_length, NoDup_submseteq; [apply NoDup_fst_map_to_list |].
    intros k. apply snapshot_keys.
  - intros Hnd. rewrite Hlen, <- (length_fmap labels (Values resp)).
    apply Permutation_length, NoDup_Permutation;
      [apply NoDup_fst_map_to_list | exact Hnd | apply snapshot_keys].
Qed.

Lemma found_counts_entries_witness :
  let w' := snd (updateMetrics payloadPairAgain (worldWith [])) in
  last (trace w') = Some (EvLog (LogUpdated 3))
  /\ (length (render w') <= 3)%nat
  /\ (NoDup (labels <$> [entry2; entry1; entry2]) -> length (render w') = 3%nat).
Proof.
  apply (found_counts_entries payloadPairAgain (worldWith [])
           {| Success := true; Values := [entry2; entry1; entry2] |}).
  - vm_compute. reflexivity.
  - reflexivity.
Defined.

(** ** The vector across the cycles of the loop *)

Lemma updateMetrics_requests body w :
  requests (trace (snd (updateMetrics body w))) = requests (trace w)
  /\ List.filter isRequest (added (updateMetrics body) w) = [].
Proof.
  assert (H : exists t, trace (snd (updateMetrics body w)) = trace w ++ t
                        /\ List.filter isRequest t = []).
  { destruct (snd (json.Unmarshal body zeroResponse)) as [e |] eqn:He.
    { rewrite (updateMetrics_error body w e He). eexists. split; reflexivity. }
    destruct (Success (fst (json.Unmarshal body zeroResponse))) eqn:Hs.
    - rewrite updateMetrics_success by assumption. eexists. split; [reflexivity |].
      rewrite List.filter_app. cbn [List.filter isRequest]. rewrite app_nil_r.
      generalize (fillSteps ∅ (Values (fst (json.Unmarshal body zeroResponse)))).
      intros l. induction l as [| m l IH]; [reflexivity | exact IH].
    - rewrite updateMetrics_unsuccessful by assumption. eexists. split; reflexivity. }
  destruct H as (t & Ht & Hf). split.
  - rewrite Ht, requests_app. unfold requests at 2. rewrite Hf. cbn. lia.
  - rewrite (added_app _ _ _ Ht). exact Hf.
Qed.

Lemma cycle_requests P cfg w :
  List.filter isRequest (added (cycle P cfg) w)
  = replicate (doCalls P cfg) (EvRequest (request cfg))
  /\ requests (trace (snd (cycle P cfg w))) = (requests (trace w) + doCalls P cfg)%nat.
Proof.
  assert (H : exists t, trace (snd (cycle P cfg w)) = trace w ++ t
                        /\ List.filter isRequest t
                           = replicate (doCalls P cfg) (EvRequest (request cfg))).
  { rewrite cycle_run. cbv zeta. rewrite fetchBlockedIPs_run. cbn [snd].
    assert (Hs : List.filter isRequest
                   match urlParse P (ApiURL cfg) with
                   | Some _ => []
                   | None => [EvRequest (request cfg)]
                   end = replicate (doCalls P cfg) (EvRequest (request cfg))).
    { unfold doCalls. destruct (urlParse P (ApiURL cfg)); reflexivity. }
    destruct (fetched P cfg _) as [err | body].
    - eexists. split; [unfold logged; cbn [trace]; rewrite <- !app_assoc; reflexivity |].
      rewrite !List.filter_app, Hs. cbn. rewrite app_nil_r. reflexivity.
    - match goal with |- context [updateMetrics body ?w1] =>
        pose proof (updateMetrics_trace body w1) as (t & Ht & _);
        pose proof (updateMetrics_requests body w1) as [_ Hr]
      end.
      rewrite (added_app _ _ _ Ht) in Hr.
      eexists. split; [rewrite Ht; unfold logged; cbn [trace]; rewrite <- !app_assoc; reflexivity |].
      rewrite !List.filter_app, Hs, Hr. cbn. rewrite app_nil_r. reflexivity. }
  destruct H as (t & Ht & Hf). split.
  - rewrite (added_app _ _ _ Ht). exact Hf.
  - rewrite Ht, requests_app. unfold requests at 2. rewrite Hf, length_replicate. reflexivity.
Qed.

Lemma cycle_store P cfg w :
  blockedIP (snd (cycle P cfg w))
  = match goodValues P cfg (requests (trace w)) with
    | Some vs => snapshot vs
    | None => blockedIP w
    end.
Proof.
  rewrite cycle_run. cbv zeta. unfold goodValues.
  destruct (fetched P cfg _) as [err | body]; [rewrite fetchBlockedIPs_run; reflexivity |].
  match goal with |- context [updateMetrics body ?w1] => set (w1' := w1) end.
  assert (Hw1 : blockedIP w1' = blockedIP w).
  { subst w1'. rewrite fetchBlockedIPs_run. reflexivity. }
  destruct (snd (json.Unmarshal body zeroResponse)) as [e |] eqn:He.
  { rewrite (updateMetrics_error body w1' e He).
    destruct (json.Unmarshal body zeroResponse) as [resp err]. cbn [snd] in He. subst err.
    cbn. exact Hw1. }
  destruct (Success (fst (json.Unmarshal body zeroResponse))) eqn:Hs.
  - rewrite updateMetrics_success by assumption.
    destruct (json.Unmarshal body zeroResponse) as [resp err].
    cbn [fst snd] in *. subst err. rewrite Hs. reflexivity.
  - rewrite updateMetrics_unsuccessful by assumption.
    destruct (json.Unmarshal body zeroResponse) as [resp err].
    cbn [fst snd] in *. subst err. rewrite Hs. cbn. exact Hw1.
Qed.

Lemma scrapingLoop_store P cfg k : forall w,
  blockedIP (snd (scrapingLoop P k cfg w))
  = match latestGood P cfg k (requests (trace w)) with
    | Some vs => snapshot vs
    | None => blockedIP w
    end.
Proof.
  induction k as [| k IH]; intros w; [reflexivity |].
  rewrite scrapingLoop_next, IH. cbn [latestGood ticked trace blockedIP].
  rewrite requests_app. destruct (cycle_requests P cfg w) as [_ ->].
  cbn [requests List.filter isRequest length]. rewrite Nat.add_0_r.
  destruct (latestGood P cfg k _); [reflexivity |]. apply cycle_store.
Qed.

Lemma goodValues_valid P cfg n vs :
  goodValues P cfg n = Some vs -> forallb labels_valid vs = true.
Proof.
  unfold goodValues. destruct (fetched P cfg n) as [err | body]; [discriminate |].
  pose proof (Unmarshal_valid body zeroResponse eq_refl) as Hv.
  destruct (json.Unmarshal body zeroResponse) as [resp err].
  destruct (noError err && Success resp); [| discriminate].
  intros [= <-]. exact Hv.
Qed.

Lemma latestGood_valid P cfg k : forall n vs,
  latestGood P cfg k n = Some vs -> forallb labels_valid vs = true.
Proof.
  induction k as [| k IH]; intros n vs H; cbn [latestGood] in H; [discriminate |].
  destruct (latestGood P cfg k _) eqn:E.
  - inversion H; subst. eauto.
  - eauto using goodValues_valid.
Qed.

Lemma startScrapingLoop_store P cfg k w :
  0 < ScrapeInterval cfg ->
  blockedIP (snd (startScrapingLoop P k cfg w))
  = match latestGood P cfg k (requests (trace w)) with
    | Some vs => snapshot vs
    | None => blockedIP w
    end.
Proof.
  intros Hd. rewrite startScrapingLoop_unfold by exact Hd. rewrite scrapingLoop_store.
  unfold tickerStarted. cbn [trace blockedIP]. rewrite requests_app.
  cbn [requests List.filter isRequest length]. rewrite Nat.add_0_r. reflexivity.
Qed.

(** X5. After any number of iterations of the loop the vector is the
    snapshot of the latest cycle whose payload arrived, decoded and
    said [success], and what it was at the start when there is no
    such cycle: a cycle that fails in whatever way leaves the last
    good snapshot in place. *)
Theorem store_is_latest_good P cfg k w :
  0 < ScrapeInterval cfg ->
  let w' := snd (startScrapingLoop P k cfg w) in
  match latestGood P cfg k (requests (trace w)) with
  | Some vs => blockedIP w' = snapshot vs /\ render w' = GaugeVec.Collect (snapshot vs)
  | None => blockedIP w' = blockedIP w /\ render w' = render w
  end.
Proof.
  intros Hd w'. subst w'. unfold render. rewrite startScrapingLoop_store by exact Hd.
  destruct (latestGood P cfg k _); auto.
Qed.

Lemma store_is_latest_good_witness :
  let P := platformScript [payloadOne; payloadFailed; payloadTruncated] in
  let w' := snd (startScrapingLoop P 3 exampleConfig (worldWith [entry2])) in
  match latestGood P exampleConfig 3 (requests (trace (worldWith [entry2]))) with
  | Some vs => blockedIP w' = snapshot vs /\ render w' = GaugeVec.Collect (snapshot vs)
  | None => blockedIP w' = blockedIP (worldWith [entry2])
            /\ render w' = render (worldWith [entry2])
  end.
Proof.
  apply (store_is_latest_good (platformScript [payloadOne; payloadFailed; payloadTruncated])
           exampleConfig 3 (worldWith [entry2])).
  reflexivity.
Defined.

Lemma Collect_snapshot_valid vs :
  forallb labels_valid vs = true ->
  forallb seriesValid (GaugeVec.Collect (snapshot vs)) = true.
Proof.
  intros Hv. apply forallb_forall. intros s Hs.
  apply list_elem_of_In, elem_of_Collect in Hs.
  rewrite snapshot_lookup in Hs.
  destruct (bool_decide (seriesLabels s ∈ labels <$> vs)) eqn:E; [| discriminate].
  apply bool_decide_eq_true, list_elem_of_fmap in E as (v & Hl & Hin).
  rewrite forallb_forall in Hv. specialize (Hv v (proj1 (list_elem_of_In _ _) Hin)).
  unfold labels_valid in Hv. unfold seriesValid, seriesLabels, labels in *.
  inversion Hl as [[Hi Hu]]. rewrite Hi, Hu. exact Hv.
Qed.

(** X2. The loop keeps the label values of the vector valid UTF-8:
    if those of the series at the start are, so are those of the
    series after any number of iterations, whatever the upstream has
    sent. *)
Theorem loop_keeps_labels_valid P cfg k w :
  0 < ScrapeInterval cfg ->
  forallb seriesValid (render w) = true ->
  forallb seriesValid (render (snd (startScrapingLoop P k cfg w))) = true.
Proof.
  intros Hd Hw. unfold render. rewrite startScrapingLoop_store by exact Hd.
  destruct (latestGood P cfg k _) as [vs |] eqn:E; [| exact Hw].
  apply Collect_snapshot_valid. eauto using latestGood_valid.
Qed.

Lemma loop_keeps_labels_valid_witness :
  forallb seriesValid
    (render (snd (startScrapingLoop (platformScript [payloadOne; payloadTruncated]) 2
                    exampleConfig (worldWith [entry2])))) = true.
Proof.
  apply (loop_keeps_labels_valid (platformScript [payloadOne; payloadTruncated])
           exampleConfig 2 (worldWith [entry2])).
  - reflexivity.
  - vm_compute. reflexivity.
Defined.

Lemma scrapingLoop_requests P cfg k : forall w,
  List.filter isRequest (added (scrapingLoop P k cfg) w)
  = replicate (k * doCalls P cfg) (EvRequest (request cfg)).
Proof.
  induction k as [| k IH]; intros w.
  - unfold added. cbn. rewrite drop_all. reflexivity.
  - rewrite added_scrapingLoop_next, List.filter_app. cbn [List.filter isRequest].
    rewrite IH. destruct (cycle_requests P cfg w) as [-> _].
    cbn [Nat.mul]. rewrite replicate_add. reflexivity.
Qed.

(** X6. The loop calls [httpClient.Do] once per cycle and nowhere
    else: after [k] iterations the calls that the loop has made are
    [k] calls on the GET request to the URL of the configuration with
    its user and password as basic authentication (none at all when
    [http.NewRequest] refuses that URL).  This counts the calls of
    [Do], not what the client puts on the wire for a call. *)
Theorem one_call_per_cycle P cfg k w :
  0 < ScrapeInterval cfg ->
  List.filter isRequest (added (startScrapingLoop P k cfg) w)
  = replicate (k * doCalls P cfg)
      (EvRequest {| Method := "GET"; URL := ApiURL cfg;
                    BasicAuth := Some (User cfg, Password cfg) |}).
Proof.
  intros Hd. rewrite added_startScrapingLoop by exact Hd.
  cbn [List.filter isRequest]. apply scrapingLoop_requests.
Qed.

Lemma one_call_per_cycle_witness :
  List.filter isRequest
    (added (startScrapingLoop (platformWith (ok200 payloadOne)) 4 exampleConfig)
       (worldWith []))
  = replicate (4 * doCalls (platformWith (ok200 payloadOne)) exampleConfig)
      (EvRequest {| Method := "GET"; URL := ApiURL exampleConfig;
                    BasicAuth := Some (User exampleConfig, Password exampleConfig) |}).
Proof.
  apply (one_call_per_cycle (platformWith (ok200 payloadOne)) exampleConfig 4 (worldWith [])).
  reflexivity.
Defined.

(** ** Loading the configuration *)

Lemma Getenv_effective_set P w k v :
  environ w !! k = Some v -> Getenv (effectiveEnv P w) k = v.
Proof.
  intros H. unfold Getenv, effectiveEnv, dotenvLoad.
  destruct (dotenv P) as [err | file]; [rewrite H; reflexivity |].
  rewrite (lookup_union_Some_l _ _ _ _ H). reflexivity.
Qed.

Lemma Getenv_effective_pick P w file k :
  dotenv P = inr file -> Getenv (effectiveEnv P w) k = pick (environ w) file k.
Proof.
  intros Hd. unfold Getenv, effectiveEnv, dotenvLoad, pick. rewrite Hd.
  destruct (environ w !! k) as [v |] eqn:E.
  - rewrite (lookup_union_Some_l _ _ _ _ E). reflexivity.
  - rewrite lookup_union_r by exact E. reflexivity.
Qed.

(** X7. With a [.env] file, each value of the configuration is that of
    the process environment when the variable is set there, and that
    of the file otherwise: the environment wins, the file fills the
    gaps. *)
Theorem dotenv_fills_gaps P w file cfg :
  dotenv P = inr file ->
  fst (loadConfig P w) = inl (inr cfg) ->
  ApiURL cfg = pick (environ w) file "EXPORTER_API_URL"
  /\ User cfg = pick (environ w) file "EXPORTER_USER"
  /\ Password cfg = pick (environ w) file "EXPORTER_PASSWORD"
  /\ Port cfg = (if String.eqb (pick (environ w) file "EXPORTER_PORT") ""
                 then ":9898" else pick (environ w) file "EXPORTER_PORT")
  /\ ScrapeInterval cfg
     = time.seconds (intervalSeconds
                       (pick (environ w) file "EXPORTER_SCRAPE_INTERVAL_SECONDS")).
Proof.
  intros Hd H. rewrite loadConfig_run in H. cbv zeta in H. cbn [fst] in H.
  rewrite !(Getenv_effective_pick P w file _ Hd) in H.
  destruct (_ || _); [discriminate |].
  inversion H; subst. cbn. auto.
Qed.

Lemma dotenv_fills_gaps_witness :
  let w := startWorld {[ "EXPORTER_USER" := "envuser" ]} in
  let cfg := {| ApiURL := "http://file.example/blackhole"; User := "envuser";
                Password := "filesecret"; Port := ":9100";
                ScrapeInterval := time.seconds 60 |} in
  ApiURL cfg = pick (environ w) exampleDotenv "EXPORTER_API_URL"
  /\ User cfg = pick (environ w) exampleDotenv "EXPORTER_USER"
  /\ Password cfg = pick (environ w) exampleDotenv "EXPORTER_PASSWORD"
  /\ Port cfg = (if String.eqb (pick (environ w) exampleDotenv "EXPORTER_PORT") ""
                 then ":9898" else pick (environ w) exampleDotenv "EXPORTER_PORT")
  /\ ScrapeInterval cfg
     = time.seconds (intervalSeconds
                       (pick (environ w) exampleDotenv "EXPORTER_SCRAPE_INTERVAL_SECONDS")).
Proof.
  apply (dotenv_fills_gaps platformDotenv (startWorld {[ "EXPORTER_USER" := "envuser" ]})
           exampleDotenv).
  - reflexivity.
  - vm_compute. reflexivity.
Defined.

(** X8. A required variable that the process environment sets to the
    empty string hides the value of the [.env] file: [loadConfig]
    fails, whatever the file holds. *)
Theorem empty_variable_hides_dotenv P w k :
  k ∈ ["EXPORTER_API_URL"; "EXPORTER_USER"; "EXPORTER_PASSWORD"] ->
  environ w !! k = Some "" ->
  fst (loadConfig P w) = inl (inl ErrMissingEnv).
Proof.
  intros Hk He. rewrite loadConfig_run. cbv zeta. cbn [fst].
  pose proof (Getenv_effective_set P w k "" He) as Hg.
  repeat (apply elem_of_cons in Hk as [-> | Hk]); [| | | inversion Hk];
    rewrite Hg; cbn [String.eqb orb]; rewrite ?orb_true_r; reflexivity.
Qed.

Lemma empty_variable_hides_dotenv_witness :
  fst (loadConfig platformDotenv (startWorld {[ "EXPORTER_PASSWORD" := "" ]}))
  = inl (inl ErrMissingEnv).
Proof.
  apply (empty_variable_hides_dotenv platformDotenv
           (startWorld {[ "EXPORTER_PASSWORD" := "" ]}) "EXPORTER_PASSWORD").
  - apply (bool_decide_unpack _). vm_compute. exact I.
  - vm_compute. reflexivity.
Defined.

(** X9. A [.env] file that cannot be loaded is no error: [loadConfig]
    logs one warning and returns what it returns with an empty file;
    it leaves the environment and the vector as they were. *)
Theorem missing_dotenv_is_warning P w err :
  dotenv P = inl err ->
  fst (loadConfig P w) = fst (loadConfig (withDotenv P (inr ∅)) w)
  /\ snd (loadConfig P w) = logged (WarnDotenv err) w.
Proof.
  intros Hd. rewrite !loadConfig_run. cbv zeta. cbn [fst snd].
  assert (He : effectiveEnv (withDotenv P (inr ∅)) w = effectiveEnv P w).
  { unfold effectiveEnv, withDotenv, dotenvLoad. cbn [dotenv]. rewrite Hd.
    apply (right_id_L ∅ (∪)). }
  rewrite He. split; [reflexivity |].
  unfold afterDotenv. rewrite Hd. reflexivity.
Qed.

Lemma missing_dotenv_is_warning_witness :
  let P := platformWith (ok200 payloadOne) in
  let w := startWorld (exampleEnv "30") in
  fst (loadConfig P w) = fst (loadConfig (withDotenv P (inr ∅)) w)
  /\ snd (loadConfig P w) = logged (WarnDotenv "open .env: no such file or directory") w.
Proof.
  apply (missing_dotenv_is_warning (platformWith (ok200 payloadOne))
           (startWorld (exampleEnv "30"))).
  reflexivity.
Defined.

(** X10. Loading the configuration a second time gives the same
    result and leaves the environment as the first load left it. *)
Theorem loadConfig_twice P w :
  fst (loadConfig P (snd (loadConfig P w))) = fst (loadConfig P w)
  /\ environ (snd (loadConfig P (snd (loadConfig P w)))) = environ (snd (loadConfig P w)).
Proof.
  assert (He : effectiveEnv P (afterDotenv P w) = effectiveEnv P w).
  { unfold effectiveEnv, afterDotenv, dotenvLoad.
    destruct (dotenv P) as [err | file]; [reflexivity |]. cbn [environ].
    rewrite <- (assoc_L (∪)), (idemp_L (∪)). reflexivity. }
  rewrite !loadConfig_run. cbv zeta. cbn [fst snd]. rewrite He.
  split; [reflexivity |]. rewrite !environ_afterDotenv. exact He.
Qed.

(** ** The interval of the loop *)

Lemma intervalSeconds_pos s : 0 < intervalSeconds s.
Proof.
  unfold intervalSeconds. destruct (strconv.Atoi s) as [n err].
  destruct (bool_decide (err ≠ None)); [reflexivity |].
  destruct (Z.leb_spec n 0); cbn [orb]; lia.
Qed.

Lemma seconds_in_range n :
  0 < n <= 9223372036 -> time.seconds n = n * time.Second /\ 0 < time.seconds n.
Proof.
  intros Hn. unfold time.seconds, time.wrap64, time.Second.
  rewrite Z.mod_small by lia. lia.
Qed.

(** X11. The interval of the configuration: the text of a number of
    seconds from 1 to 9223372036 gives that many seconds, and a text
    that [Atoi] refuses, or a number that is not positive, gives 60
    seconds. *)
Theorem loadConfig_interval P w cfg :
  fst (loadConfig P w) = inl (inr cfg) ->
  let s := Getenv (effectiveEnv P w) "EXPORTER_SCRAPE_INTERVAL_SECONDS" in
  (forall n, strconv.Atoi s = (n, None) -> 0 < n <= 9223372036 ->
             ScrapeInterval cfg = n * time.Second)
  /\ (snd (strconv.Atoi s) <> None \/ fst (strconv.Atoi s) <= 0 ->
      ScrapeInterval cfg = 60 * time.Second).
Proof.
  intros H s. rewrite loadConfig_run in H. cbv zeta in H. cbn [fst] in H.
  destruct (_ || _); [discriminate |]. inversion H; subst. cbn [ScrapeInterval]. fold s.
  split.
  - intros n HA Hn. apply (interval_in_range s n HA Hn).
  - apply interval_default.
Qed.

Lemma loadConfig_interval_witness :
  let P := platformWith (ok200 payloadOne) in
  let w := startWorld (exampleEnv "15") in
  let s := Getenv (effectiveEnv P w) "EXPORTER_SCRAPE_INTERVAL_SECONDS" in
  (forall n, strconv.Atoi s = (n, None) -> 0 < n <= 9223372036 ->
             15000000000 = n * time.Second)
  /\ (snd (strconv.Atoi s) <> None \/ fst (strconv.Atoi s) <= 0 ->
      15000000000 = 60 * time.Second).
Proof.
  apply (loadConfig_interval (platformWith (ok200 payloadOne)) (startWorld (exampleEnv "15"))
           {| ApiURL := "http://fnm.example/blackhole"; User := "api"; Password := "secret";
              Port := ":9898"; ScrapeInterval := 15000000000 |}).
  vm_compute. reflexivity.
Defined.

(** X12. A configuration that [loadConfig] returns for an interval of
    at most 9223372036 seconds lets the loop start and run: the ticker
    is made, and no iteration halts the process. *)
Theorem loaded_config_runs P w cfg :
  fst (loadConfig P w) = inl (inr cfg) ->
  intervalSeconds (Getenv (effectiveEnv P w) "EXPORTER_SCRAPE_INTERVAL_SECONDS")
    <= 9223372036 ->
  0 < ScrapeInterval cfg
  /\ forall k w1,
       fst (startScrapingLoop P k cfg w1) = inl tt
       /\ exists t, added (startScrapingLoop P k cfg) w1
                    = EvNewTicker (ScrapeInterval cfg) :: t.
Proof.
  intros H Hi. rewrite loadConfig_run in H. cbv zeta in H. cbn [fst] in H.
  destruct (_ || _); [discriminate |]. inversion H; subst. cbn [ScrapeInterval].
  match goal with |- 0 < time.seconds ?n /\ _ =>
    pose proof (seconds_in_range n (conj (intervalSeconds_pos _) Hi)) as [_ Hpos]
  end.
  split; [exact Hpos |]. intros k w1.
  match goal with |- context [startScrapingLoop P k ?c w1] => set (cfg := c) end.
  assert (Hd : 0 < ScrapeInterval cfg) by exact Hpos.
  rewrite added_startScrapingLoop by exact Hd.
  rewrite startScrapingLoop_unfold by exact Hd.
  destruct (scrapingLoop_run P cfg k (tickerStarted cfg w1)) as (Hok & _).
  split; [exact Hok | eauto].
Qed.

Lemma loaded_config_runs_witness :
  let P := platformWith (TransportError "connection refused") in
  let cfg := {| ApiURL := "http://fnm.example/blackhole"; User := "api";
                Password := "secret"; Port := ":9898"; ScrapeInterval := 15000000000 |} in
  0 < ScrapeInterval cfg
  /\ forall k w1,
       fst (startScrapingLoop P k cfg w1) = inl tt
       /\ exists t, added (startScrapingLoop P k cfg) w1
                    = EvNewTicker (ScrapeInterval cfg) :: t.
Proof.
  apply (loaded_config_runs (platformWith (TransportError "connection refused"))
           (startWorld (exampleEnv "15"))).
  - vm_compute. reflexivity.
  - vm_compute. discriminate.
Defined.

(** ** The health endpoint *)

(** X14. [healthCheckHandler] answers every request with the status
    200 and the content type [application/json] added to the headers
    set before; the body is a JSON object whose [status] is [ok], and
    it goes out for every method but HEAD.  The handler reads nothing
    of the state of the scrape loop. *)
Theorem health_always_ok r h :
  exists w',
    healthCheckHandler (http.newResponse r h) r = Some w'
    /\ http.wroteHeader w' = Some (200, <["Content-Type" := "application/json"]> h)
    /\ http.written w' = (if String.eqb (Method r) "HEAD" then "" else healthBody)
    /\ json.parse healthBody = Some (json.Object [("status", json.Str "ok")]).
Proof.
  unfold healthCheckHandler, http.newResponse, http.HeaderSet.
  cbn [http.WriteHeader http.wroteHeader http.handlerHeader http.req http.written
       Z.ltb Z.leb Z.eqb Z.compare Pos.compare Pos.compare_cont Pos.eqb orb andb negb].
  unfold http.WriteString.
  cbn [http.wroteHeader http.handlerHeader http.req http.written].
  change (String.eqb healthBody EmptyString) with false.
  change (http.bodyAllowedForStatus 200) with true. cbn [negb].
  destruct (String.eqb (Method r) "HEAD"); eexists; repeat split; vm_compute; reflexivity.
Qed.

(** ** The payload and the decoder *)

Lemma scan_app a : forall s b,
  json.scan s (String.append a b)
  = match json.scan s a with
    | Some s1 => json.scan s1 b
    | None => None
    end.
Proof.
  induction a as [| c a IH]; intros s b; [reflexivity |].
  change (String.append (String c a) b) with (String c (String.append a b)).
  cbn [json.scan]. destruct (json.stepByte s c); [apply IH | reflexivity].
Qed.

Lemma isSpace_code c :
  json.isSpace c = true -> code c = 32 \/ code c = 9 \/ code c = 13 \/ code c = 10.
Proof.
  unfold json.isSpace. intros H.
  repeat (apply orb_true_iff in H as [H | H]); apply Z.eqb_eq in H; tauto.
Qed.

Lemma scan_leading_space pre :
  allSpace pre = true -> json.scan json.reset pre = Some json.reset.
Proof.
  induction pre as [| c pre IH]; cbn [allSpace json.scan]; [reflexivity |].
  intros [Hc Hp]%andb_true_iff.
  unfold json.stepByte, json.stateBeginValue. cbn [json.step json.reset].
  rewrite Hc. exact (IH Hp).
Qed.

Ltac scanner_unfold H :=
  unfold json.stateBeginValue, json.stateBeginString, json.state0, json.endNumber,
    json.stateEndValue, json.stateEndTop, json.pushParseState, json.popParseState,
    json.stateESign in H.

Lemma litNoSpace_finish v s : litNoSpace (json.finish v s) = litNoSpace s.
Proof.
  unfold json.finish, litNoSpace.
  destruct (json.parseState s) as [| [ms k | ms k | vs] r]; reflexivity.
Qed.

Lemma litNoSpace_pop v s : litNoSpace (json.popParseState v s) = true.
Proof.
  unfold json.popParseState. rewrite litNoSpace_finish. unfold litNoSpace. cbn [json.step].
  destruct (tl (json.parseState s)); reflexivity.
Qed.

Lemma stateEndValue_lit s c s' :
  json.stateEndValue s c = Some s' -> litNoSpace s' = true.
Proof.
  intros H. unfold json.stateEndValue, json.stateEndTop in H.
  scanner_cases H; try discriminate; injection H as <-;
    first [apply litNoSpace_pop | reflexivity].
Qed.

Lemma stateBeginValue_lit s c s' :
  litNoSpace s = true -> json.stateBeginValue s c = Some s' -> litNoSpace s' = true.
Proof.
  intros Hs H. unfold json.stateBeginValue, json.pushParseState in H.
  scanner_cases H; try discriminate; injection H as <-; try reflexivity; exact Hs.
Qed.

Lemma stateBeginString_lit s c s' :
  litNoSpace s = true -> json.stateBeginString s c = Some s' -> litNoSpace s' = true.
Proof.
  intros Hs H. unfold json.stateBeginString in H.
  scanner_cases H; try discriminate; injection H as <-; try reflexivity; exact Hs.
Qed.

Lemma endNumber_lit s c s' : json.endNumber s c = Some s' -> litNoSpace s' = true.
Proof. unfold json.endNumber. apply stateEndValue_lit. Qed.

Lemma state0_lit s c s' : json.state0 s c = Some s' -> litNoSpace s' = true.
Proof.
  intros H. unfold json.state0 in H.
  scanner_cases H; try (injection H as <-; reflexivity). eauto using endNumber_lit.
Qed.

Lemma stepByte_lit s c s' :
  litNoSpace s = true -> json.stepByte s c = Some s' -> litNoSpace s' = true.
Proof.
  intros Hs H. unfold json.stepByte, json.stateESign, json.stateEndTop in H.
  destruct (json.step s) eqn:Hst;
    try (scanner_cases H; try discriminate;
         first [ injection H as <-; rewrite ?litNoSpace_finish; first [reflexivity | exact Hs]
               | eapply stateBeginValue_lit; [exact Hs | exact H]
               | eapply stateBeginString_lit; [exact Hs | exact H]
               | eapply stateEndValue_lit; exact H
               | eapply state0_lit; exact H
               | eapply endNumber_lit; exact H
               | injection H as <-; apply litNoSpace_pop
               | injection H as <-;
                 match goal with Hn : json.step _ = json.InStringEscU ?n |- _ =>
                   destruct n as [| [| [| ?]]] end;
                 reflexivity ]).
  (* inside a literal *)
  unfold litNoSpace in Hs. rewrite Hst in Hs.
  match type of Hst with _ = json.Lit ?r _ => destruct r as [| c' rest'] end;
    [discriminate |].
  cbn [noSpace] in Hs. apply andb_true_iff in Hs as [_ Hs].
  destruct (Ascii.eqb c c'); [| discriminate].
  destruct rest'; injection H as <-; rewrite ?litNoSpace_finish; [reflexivity | exact Hs].
Qed.

Lemma eqb_space_lit c c' :
  json.isSpace c = true -> json.isSpace c' = false -> Ascii.eqb c c' = false.
Proof.
  intros Hc Hc'. destruct (Ascii.eqb c c') eqn:E; [| reflexivity].
  apply Ascii.eqb_eq in E. subst. congruence.
Qed.

(** One byte of white space after a text does not change the value
    that the text denotes, and leaves a text that is not complete
    incomplete. *)
Lemma space_step s c :
  litNoSpace s = true -> json.isSpace c = true ->
  match json.stepByte s c with
  | Some s2 => final s2 = final s
  | None => final s = None
  end.
Proof.
  intros Hl Hc.
  assert (H32 : json.isSpace (chr 32) = true) by reflexivity.
  assert (Hd : strconv.isDigit c = false).
  { unfold strconv.isDigit. destruct (isSpace_code c Hc) as [E | [E | [E | E]]];
      rewrite E; reflexivity. }
  assert (Hh : json.hexval c = None).
  { unfold json.hexval. destruct (isSpace_code c Hc) as [E | [E | [E | E]]];
      rewrite E; reflexivity. }
  destruct s as [st ps lit top]. unfold litNoSpace in Hl. cbn [json.step] in Hl.
  unfold final, json.eof, json.stepByte, json.stateBeginValue, json.stateBeginString,
    json.state0, json.endNumber, json.stateEndValue, json.stateEndTop, json.stateESign.
  cbn [json.step json.parseState json.lit json.top].
  rewrite ?Hc, ?Hd, ?Hh.
  change (strconv.isDigit (chr 32)) with false.
  change (json.hexval (chr 32)) with (@None Z).
  change (json.isSpace (chr 32)) with true.
  change (code (chr 32)) with 32.
  destruct st.
  all: try (destruct (isSpace_code c Hc) as [E | [E | [E | E]]]; rewrite ?E;
            destruct ps as [| [ms [k |] | ms k | vs] r];
            cbn; rewrite ?Hc; cbn; reflexivity).
  destruct rest as [| c' rest']; [reflexivity |].
  cbn [noSpace] in Hl. apply andb_true_iff in Hl as [Hc' _]. apply negb_true_iff in Hc'.
  rewrite (eqb_space_lit c c' Hc Hc'), (eqb_space_lit (chr 32) c' H32 Hc'). reflexivity.
Qed.

Lemma scan_trailing_space post : forall s,
  litNoSpace s = true -> allSpace post = true ->
  match json.scan s post with
  | Some s2 => final s2 = final s
  | None => final s = None
  end.
Proof.
  induction post as [| c post IH]; intros s Hl Hp; cbn [json.scan]; [reflexivity |].
  cbn [allSpace] in Hp. apply andb_true_iff in Hp as [Hc Hp].
  pose proof (space_step s c Hl Hc) as Hstep.
  destruct (json.stepByte s c) as [s1 |] eqn:E; [| exact Hstep].
  specialize (IH s1 (stepByte_lit s c s1 Hl E) Hp).
  destruct (json.scan s1 post); congruence.
Qed.

Lemma scan_lit data : forall s s',
  litNoSpace s = true -> json.scan s data = Some s' -> litNoSpace s' = true.
Proof.
  induction data as [| c r IH]; intros s s' Hs H; cbn in H; [congruence |].
  destruct (json.stepByte s c) eqn:Hc; [| discriminate]. eauto using stepByte_lit.
Qed.

Lemma parse_surrounding_space pre body post :
  allSpace pre = true -> allSpace post = true ->
  json.parse (String.append pre (String.append body post)) = json.parse body.
Proof.
  intros Hpre Hpost.
  assert (Hparse : forall data, json.parse data
                                = match json.scan json.reset data with
                                  | Some s => final s
                                  | None => None
                                  end) by reflexivity.
  rewrite !Hparse, scan_app, (scan_leading_space pre Hpre), scan_app.
  destruct (json.scan json.reset body) as [s |] eqn:Hs; [| reflexivity].
  pose proof (scan_trailing_space post s (scan_lit body json.reset s (eq_refl true) Hs) Hpost) as H.
  destruct (json.scan s post); [exact H | symmetry; exact H].
Qed.

(** X16. White space around the payload does not matter: with spaces,
    tabs and line ends before and after it, a body is decoded to the
    same response with the same error, and [updateMetrics] does the
    same. *)
Theorem surrounding_space_ignored pre body post w :
  allSpace pre = true -> allSpace post = true ->
  json.Unmarshal (String.append pre (String.append body post)) zeroResponse
  = json.Unmarshal body zeroResponse
  /\ updateMetrics (String.append pre (String.append body post)) w = updateMetrics body w.
Proof.
  intros Hpre Hpost.
  assert (HU : json.Unmarshal (String.append pre (String.append body post)) zeroResponse
               = json.Unmarshal body zeroResponse).
  { unfold json.Unmarshal. rewrite (parse_surrounding_space pre body post Hpre Hpost).
    reflexivity. }
  split; [exact HU |]. unfold updateMetrics. rewrite HU. reflexivity.
Qed.

Lemma surrounding_space_ignored_witness :
  json.Unmarshal payloadSpaced zeroResponse = json.Unmarshal payloadOne zeroResponse
  /\ updateMetrics payloadSpaced (worldWith [entry2])
     = updateMetrics payloadOne (worldWith [entry2]).
Proof.
  apply (surrounding_space_ignored (String (chr 10) "  ") payloadOne
           (String (chr 13) (String (chr 10) "")) (worldWith [entry2])).
  - reflexivity.
  - reflexivity.
Defined.

Lemma fold_memberResponse_filter ms : forall acc,
  fold_left json.memberResponse (List.filter (denotes ["success"; "values"]) ms) acc
  = fold_left json.memberResponse ms acc.
Proof.
  induction ms as [| m ms IH]; intros acc; [reflexivity |].
  cbn [List.filter fold_left]. unfold denotes at 1.
  destruct (json.field ["success"; "values"] (fst m)) eqn:Hf.
  - cbn [fold_left]. apply IH.
  - rewrite IH. f_equal. destruct acc as [t err]. unfold json.memberResponse.
    rewrite Hf. reflexivity.
Qed.

(** X17. Members that the response does not declare are ignored: a
    payload and the payload without them decode to the same response
    and error, and [updateMetrics] does the same on both. *)
Theorem extra_members_ignored body body' ms w :
  json.parse body = Some (json.Object ms) ->
  json.parse body' = Some (json.Object (List.filter (denotes ["success"; "values"]) ms)) ->
  json.Unmarshal body zeroResponse = json.Unmarshal body' zeroResponse
  /\ updateMetrics body w = updateMetrics body' w.
Proof.
  intros Hp Hp'.
  assert (HU : json.Unmarshal body zeroResponse = json.Unmarshal body' zeroResponse).
  { unfold json.Unmarshal. rewrite Hp, Hp'. cbn [json.decodeResponse].
    rewrite fold_memberResponse_filter. reflexivity. }
  split; [exact HU |]. unfold updateMetrics. rewrite HU. reflexivity.
Qed.

Lemma extra_members_ignored_witness :
  json.Unmarshal payloadExtra zeroResponse = json.Unmarshal payloadOne zeroResponse
  /\ updateMetrics payloadExtra (worldWith [entry2])
     = updateMetrics payloadOne (worldWith [entry2]).
Proof.
  apply (extra_members_ignored payloadExtra payloadOne
           [("success", json.Bool true); ("error_text", json.Str "");
            ("values", json.Array [json.Object [("uuid", json.Str "u1");
                                                ("ip", json.Str "1.2.3.4")]]);
            ("total", json.Number "1")]
           (worldWith [entry2])).
  - vm_compute. reflexivity.
  - vm_compute. reflexivity.
Defined.

(** X15. [updateMetrics] logs one line per call, and the line tells
    the outcome: the decode error, that the API was not successful, or
    the number of entries found. *)
Theorem update_logs_outcome body w :
  List.filter isLog (added (updateMetrics body) w)
  = [EvLog (outcomeLine (json.Unmarshal body zeroResponse))].
Proof.
  unfold outcomeLine.
  destruct (snd (json.Unmarshal body zeroResponse)) as [e |] eqn:He.
  { rewrite (added_app (updateMetrics body) w [EvLog (LogDecodeError e)]); [reflexivity |].
    rewrite (updateMetrics_error body w e He). reflexivity. }
  destruct (Success (fst (json.Unmarshal body zeroResponse))) eqn:Hs.
  - erewrite added_app; [| rewrite updateMetrics_success by assumption; reflexivity].
    rewrite List.filter_app. cbn [List.filter isLog].
    match goal with |- List.filter isLog (EvMetrics <$> ?l) ++ _ = _ =>
      assert (Hm : List.filter isLog (EvMetrics <$> l) = [])
        by (generalize l; intros l0; induction l0 as [| m l0 IH]; [reflexivity | exact IH])
    end.
    rewrite Hm. reflexivity.
  - rewrite (added_app (updateMetrics body) w [EvLog LogNotSuccessful]); [reflexivity |].
    rewrite updateMetrics_unsuccessful by assumption. reflexivity.
Qed.

(** ** What a scrape sees of a cycle that fails *)

(** X18. A cycle that publishes nothing is invisible to a concurrent
    scrape: be it for a failed fetch, a payload that does not decode
    or one that says [success] false, no operation touches the vector
    during the cycle, and a scrape sees the old snapshot only. *)
Theorem failed_cycle_is_invisible P cfg w :
  goodValues P cfg (requests (trace w)) = None ->
  seen (cycle P cfg) w = [blockedIP w]
  /\ render (snd (cycle P cfg w)) = render w.
Proof.
  intros Hg. unfold render. rewrite cycle_store, Hg. split; [| reflexivity].
  unfold seen. f_equal.
  assert (H : exists t, trace (snd (cycle P cfg w)) = trace w ++ t /\ metricsOf t = []).
  { rewrite cycle_run. cbv zeta. unfold goodValues in Hg.
    assert (Hq : metricsOf match urlParse P (ApiURL cfg) with
                           | Some _ => []
                           | None => [EvRequest (request cfg)]
                           end = []).
    { destruct (urlParse P (ApiURL cfg)); reflexivity. }
    destruct (fetched P cfg _) as [err | body].
    - rewrite fetchBlockedIPs_run. unfold logged. cbn [snd trace].
      eexists. split; [rewrite <- !app_assoc; reflexivity |].
      rewrite !metricsOf_app, Hq. reflexivity.
    - match goal with |- context [updateMetrics body ?w1] => set (w1' := w1) end.
      assert (Hw1 : trace w1' = trace w ++ [EvLog LogScraping]
                                  ++ match urlParse P (ApiURL cfg) with
                                     | Some _ => []
                                     | None => [EvRequest (request cfg)]
                                     end).
      { subst w1'. rewrite fetchBlockedIPs_run. unfold logged. cbn [snd trace].
        rewrite <- app_assoc. reflexivity. }
      assert (Hu : exists l, updateMetrics body w1' = (inl tt, logged l w1')).
      { destruct (snd (json.Unmarshal body zeroResponse)) as [e |] eqn:He.
        - eexists. apply updateMetrics_error. exact He.
        - destruct (json.Unmarshal body zeroResponse) as [resp err] eqn:HU.
          cbn [snd] in He. subst err. cbn [noError andb] in Hg.
          destruct (Success resp) eqn:Hs; [discriminate |].
          eexists. apply updateMetrics_unsuccessful; rewrite HU; [reflexivity | exact Hs]. }
      destruct Hu as [l ->]. unfold logged at 1. cbn [snd trace]. rewrite Hw1.
      eexists. split; [rewrite <- !app_assoc; reflexivity |].
      rewrite !metricsOf_app, Hq. reflexivity. }
  destruct H as (t & Ht & Hm). rewrite Ht, drop_app_length. exact Hm.
Qed.

Lemma failed_cycle_is_invisible_witness :
  let P := platformWith (Response 503 "503 Service Unavailable" "" None) in
  seen (cycle P exampleConfig) (worldWith [entry1]) = [blockedIP (worldWith [entry1])]
  /\ render (snd (cycle P exampleConfig (worldWith [entry1]))) = render (worldWith [entry1]).
Proof.
  apply (failed_cycle_is_invisible
           (platformWith (Response 503 "503 Service Unavailable" "" None))
           exampleConfig (worldWith [entry1])).
  vm_compute. reflexivity.
Defined.

(** ** Threads and their steps *)

Lemma alike_refl w : alike w w.
Proof. repeat split. Qed.

Lemma replay_nil w : replay [] w = w.
Proof. destruct w. unfold replay. cbn. rewrite app_nil_r. reflexivity. Qed.

Lemma replay_app t1 t2 w : replay t2 (replay t1 w) = replay (t1 ++ t2) w.
Proof.
  unfold replay. cbn [environ blockedIP trace]. rewrite metricsOf_app, app_assoc.
  f_equal. destruct (metricsOf t2) as [| m l] using rev_ind.
  - rewrite app_nil_r. reflexivity.
  - rewrite app_assoc, !last_snoc. reflexivity.
Qed.

Lemma alike_replay t w w' : alike w w' -> alike (replay t w) (replay t w').
Proof.
  intros (He & Hb & Hr). unfold alike, replay. cbn [environ blockedIP trace].
  rewrite !requests_app, He, Hb, Hr. auto.
Qed.

Lemma steady_run {A} (c : M A) w :
  steady c ->
  exists t, c w = (fst (c w), replay t w)
            /\ added c w = t
            /\ forall w', alike w w' -> c w' = (fst (c w), replay t w').
Proof.
  intros H. destruct (H w) as [t Ht]. exists t.
  pose proof (Ht w (alike_refl w)) as E.
  split; [exact E |]. split; [| exact Ht].
  apply added_app. rewrite E. reflexivity.
Qed.

Lemma steady_ret {A} (a : A) : steady (ret a).
Proof. intros w. exists []. intros w' _. unfold ret. rewrite replay_nil. reflexivity. Qed.

Lemma steady_halt {A} h : steady (@halt A h).
Proof. intros w. exists []. intros w' _. unfold halt. rewrite replay_nil. reflexivity. Qed.

Lemma steady_emit e : metricsOf [e] = [] -> steady (emit e).
Proof.
  intros H w. exists [e]. intros w' _. unfold emit, replay. rewrite H. reflexivity.
Qed.

Lemma steady_log l : steady (log l).
Proof. apply steady_emit. reflexivity. Qed.

Lemma steady_bind {A B} (m : M A) (f : A -> M B) :
  steady m -> (forall a, steady (f a)) -> steady (bind m f).
Proof.
  intros Hm Hf w. destruct (steady_run m w Hm) as (t1 & E1 & _ & H1).
  destruct (fst (m w)) as [a | h] eqn:Er.
  - destruct (steady_run (f a) (replay t1 w) (Hf a)) as (t2 & E2 & _ & H2).
    exists (t1 ++ t2). intros w' Hw. unfold bind.
    rewrite E1, (H1 w' Hw), (H2 _ (alike_replay t1 w w' Hw)), replay_app. reflexivity.
  - exists t1. intros w' Hw. unfold bind. rewrite E1, (H1 w' Hw). reflexivity.
Qed.

Lemma steady_forRange {A} (f : A -> M unit) l :
  (forall a, steady (f a)) -> steady (forRange l f).
Proof.
  intros Hf. induction l as [| a l IH]; [apply steady_ret |].
  cbn [forRange]. apply steady_bind; [apply Hf | intros _; exact IH].
Qed.

Lemma steady_Reset : steady blockedIP_Reset.
Proof.
  intros w. exists [EvMetrics (GaugeVec.Reset (blockedIP w))].
  intros w' (_ & Hb & _). unfold blockedIP_Reset, setMetrics, replay. rewrite Hb. reflexivity.
Qed.

Lemma steady_With labels : steady (blockedIP_With labels).
Proof.
  intros w. unfold blockedIP_With.
  destruct (GaugeVec.With labels (blockedIP w)) as [m |] eqn:E.
  - exists [EvMetrics m]. intros w' (_ & Hb & _). rewrite <- Hb, E. reflexivity.
  - exists []. intros w' (_ & Hb & _). rewrite <- Hb, E, replay_nil. reflexivity.
Qed.

Lemma steady_Set labels v : steady (gauge_Set labels v).
Proof.
  intros w. exists [EvMetrics (GaugeVec.Set_ labels v (blockedIP w))].
  intros w' (_ & Hb & _). unfold gauge_Set, setMetrics, replay. rewrite Hb. reflexivity.
Qed.

Lemma steady_Do P req : steady (Do P req).
Proof.
  intros w. exists [EvRequest req]. intros w' (_ & _ & Hr).
  unfold Do, bind, emit, ret, replay. cbn [trace fst]. rewrite Hr. reflexivity.
Qed.

Lemma steady_fetchBlockedIPs P cfg : steady (fetchBlockedIPs P cfg).
Proof.
  unfold fetchBlockedIPs. destruct (NewRequest P (ApiURL cfg)); [apply steady_ret |].
  apply steady_bind; [apply steady_Do |].
  intros [err | code status body [err |]]; try apply steady_ret.
  all: destruct (negb (code =? 200)); apply steady_ret.
Qed.

Lemma steady_replace values : steady (replace values).
Proof.
  unfold replace. apply steady_bind; [apply steady_Reset | intros _].
  apply steady_forRange. intros v.
  apply steady_bind; [apply steady_With | intros g; apply steady_Set].
Qed.

Lemma steady_updateMetrics body : steady (updateMetrics body).
Proof.
  unfold updateMetrics. destruct (json.Unmarshal body zeroResponse) as [resp [e |]].
  - apply steady_log.
  - destruct (negb (Success resp)); [apply steady_log |].
    apply steady_bind; [apply steady_replace | intros _; apply steady_log].
Qed.

Lemma steady_cycle P cfg : steady (cycle P cfg).
Proof.
  unfold cycle. apply steady_bind; [apply steady_log | intros _].
  apply steady_bind; [apply steady_fetchBlockedIPs |].
  intros [err | body]; [apply steady_log | apply steady_updateMetrics].
Qed.

Lemma steady_scrapingLoop P cfg n : steady (scrapingLoop P n cfg).
Proof.
  induction n as [| n IH]; [apply steady_ret |].
  cbn [scrapingLoop]. apply steady_bind; [apply steady_cycle | intros _].
  apply steady_bind; [apply steady_emit; reflexivity | intros _; exact IH].
Qed.

Lemma steady_startScrapingLoop P cfg n : steady (startScrapingLoop P n cfg).
Proof.
  unfold startScrapingLoop. apply steady_bind; [| intros _; apply steady_scrapingLoop].
  unfold NewTicker. destruct (ScrapeInterval cfg <=? 0); [apply steady_halt |].
  apply steady_emit. reflexivity.
Qed.

(** The steps of the loop do not depend on what [main] has logged or
    registered meanwhile. *)
Lemma thread_alike (c : M unit) w w' : steady c -> alike w w' -> thread c w = thread c w'.
Proof.
  intros Hc Hw. destruct (steady_run c w Hc) as (t & E & Ha & H).
  unfold thread, halted. rewrite Ha.
  rewrite (added_app c w' t) by (rewrite (H w' Hw); reflexivity).
  rewrite (H w' Hw). reflexivity.
Qed.

Lemma happen_replay e w : happen e w = (inl tt, replay [e] w).
Proof. destruct e; reflexivity. Qed.

Lemma interleaving_sublist {A} (a b t : list A) :
  interleaving a b t -> a `sublist_of` t /\ b `sublist_of` t.
Proof.
  induction 1 as [| x a b t _ [IHa IHb] | x a b t _ [IHa IHb]].
  - split; constructor.
  - split; [apply sublist_skip | apply sublist_cons]; assumption.
  - split; [apply sublist_cons | apply sublist_skip]; assumption.
Qed.


Lemma interleave_true s f k w :
  interleave (true :: s) f k w =
  match steps f with
  | e :: rest => interleave s {| steps := rest; ending := ending f |} k (replay [e] w)
  | [] =>
      match ending f with
      | Some h => (inr h, w)
      | None => interleave s f k w
      end
  end.
Proof.
  cbn [interleave]. unfold bind at 1, turn.
  destruct (steps f) as [| e rest].
  - destruct (ending f); reflexivity.
  - unfold bind at 1. rewrite happen_replay. reflexivity.
Qed.

Lemma interleave_false s f k w :
  interleave (false :: s) f k w =
  match steps k with
  | e :: rest => interleave s f {| steps := rest; ending := ending k |} (replay [e] w)
  | [] =>
      match ending k with
      | Some h => (inr h, w)
      | None => interleave s f k w
      end
  end.
Proof.
  cbn [interleave]. unfold bind at 1, turn.
  destruct (steps k) as [| e rest].
  - destruct (ending k); reflexivity.
  - unfold bind at 1. rewrite happen_replay. reflexivity.
Qed.

(** The process after a [go] statement: its events are steps of the
    two threads, each thread taking its own in their order, and it
    halts only with the halt of a thread that has taken all its
    steps. *)
Lemma interleave_spec s : forall f k w,
  exists a b t,
    a `prefix_of` steps f /\ b `prefix_of` steps k /\ interleaving a b t
    /\ (length t <= length s)%nat
    /\ snd (interleave s f k w) = replay t w
    /\ match fst (interleave s f k w) with
       | inl _ => True
       | inr h => (ending f = Some h /\ a = steps f) \/ (ending k = Some h /\ b = steps k)
       end.
Proof.
  induction s as [| [] s IH]; intros f k w.
  - exists [], [], []. cbn. rewrite replay_nil.
    repeat split; try apply prefix_nil; [constructor | lia].
  - rewrite interleave_true. destruct (steps f) as [| e rest] eqn:Es.
    + destruct (ending f) as [h |] eqn:Ee.
      * exists [], [], []. cbn [fst snd]. rewrite replay_nil.
        repeat split; try apply prefix_nil; [constructor | cbn; lia | left; split; reflexivity].
      * destruct (IH f k w) as (a & b & t & Ha & Hb & Hi & Hl & Hs & Hr).
        rewrite Es, Ee in *. exists a, b, t. cbn [length]. repeat split; auto.
    + destruct (IH {| steps := rest; ending := ending f |} k (replay [e] w))
        as (a & b & t & Ha & Hb & Hi & Hl & Hs & Hr).
      exists (e :: a), b, (e :: t). cbn [steps ending] in *.
      split; [apply prefix_cons; exact Ha |]. split; [exact Hb |].
      split; [constructor; exact Hi |]. split; [cbn [length]; lia |].
      split; [rewrite Hs, replay_app; reflexivity |].
      destruct (fst (interleave s _ k _)); [exact I |].
      destruct Hr as [[? ->] | ?]; [left | right]; auto.
  - rewrite interleave_false. destruct (steps k) as [| e rest] eqn:Es.
    + destruct (ending k) as [h |] eqn:Ee.
      * exists [], [], []. cbn [fst snd]. rewrite replay_nil.
        repeat split; try apply prefix_nil; [constructor | cbn; lia | right; split; reflexivity].
      * destruct (IH f k w) as (a & b & t & Ha & Hb & Hi & Hl & Hs & Hr).
        rewrite Es, Ee in *. exists a, b, t. cbn [length]. repeat split; auto.
    + destruct (IH f {| steps := rest; ending := ending k |} (replay [e] w))
        as (a & b & t & Ha & Hb & Hi & Hl & Hs & Hr).
      exists a, (e :: b), (e :: t). cbn [steps ending] in *.
      split; [exact Ha |]. split; [apply prefix_cons; exact Hb |].
      split; [constructor; exact Hi |]. split; [cbn [length]; lia |].
      split; [rewrite Hs, replay_app; reflexivity |].
      destruct (fst (interleave s f _ _)); [exact I |].
      destruct Hr as [? | [? ->]]; [left | right]; auto.
Qed.

(** Two threads that do not halt do not halt the process. *)
Lemma interleave_runs s f k w :
  ending f = None -> ending k = None -> fst (interleave s f k w) = inl tt.
Proof.
  intros Hf Hk. destruct (interleave_spec s f k w) as (a & b & t & _ & _ & _ & _ & _ & Hr).
  destruct (fst (interleave s f k w)) as [[] | h]; [reflexivity |].
  destruct Hr as [[? _] | [? _]]; congruence.
Qed.

(** A goroutine that halts before its first step halts the process at
    its first turn, if the process still runs then. *)
Lemma interleave_halts s h : forall f k w,
  steps f = [] -> ending f = Some h -> true ∈ s ->
  exists h', fst (interleave s f k w) = inr h'.
Proof.
  induction s as [| [] s IH]; intros f k w Hs He Hin.
  - apply elem_of_nil in Hin as [].
  - exists h. rewrite interleave_true, Hs, He. reflexivity.
  - apply elem_of_cons in Hin as [? | Hin]; [discriminate |].
    rewrite interleave_false. destruct (steps k) as [| e rest].
    + destruct (ending k) as [h' |]; [eauto | apply IH; assumption].
    + apply IH; assumption.
Qed.

Lemma interleave_turns t (r : unit + Halt) k : forall w n,
  (length t < n)%nat ->
  interleave (replicate n true)
    {| steps := t; ending := match r with inl _ => None | inr h => Some h end |} k w
  = (r, replay t w).
Proof.
  induction t as [| e t IH]; intros w n Hn.
  - destruct n as [| n]; [cbn in Hn; lia |]. rewrite replay_nil.
    cbn [replicate]. rewrite interleave_true. cbn [steps ending].
    destruct r as [[] | h]; [| reflexivity].
    clear Hn. induction n as [| n IHn]; [reflexivity |].
    cbn [replicate]. rewrite interleave_true. exact IHn.
  - destruct n as [| n]; [cbn in Hn; lia |].
    cbn [replicate]. rewrite interleave_true. cbn [steps ending].
    rewrite IH by (cbn [length] in Hn; lia).
    rewrite replay_app. reflexivity.
Qed.

(** A schedule that gives the goroutine all the turns, and more than
    it has steps, is the goroutine running alone. *)
Lemma interleave_alone (c : M unit) k w n :
  steady c -> (length (added c w) < n)%nat ->
  interleave (replicate n true) (thread c w) k w = c w.
Proof.
  intros Hc Hn. destruct (steady_run c w Hc) as (t & E & Ha & _).
  unfold thread, halted. rewrite Ha in *.
  rewrite (interleave_turns t (fst (c w)) k w n Hn). symmetry. exact E.
Qed.

(** ** main *)

Lemma loop_thread_runs P cfg n w :
  0 < ScrapeInterval cfg -> ending (thread (startScrapingLoop P n cfg) w) = None.
Proof.
  intros H. unfold thread, halted. cbn [ending].
  rewrite startScrapingLoop_unfold by exact H.
  destruct (scrapingLoop_run P cfg n (tickerStarted cfg w)) as [-> _]. reflexivity.
Qed.


Lemma loop_thread_panics P cfg n w :
  ScrapeInterval cfg <= 0 ->
  thread (startScrapingLoop P n cfg) w
  = {| steps := []; ending := Some (Panic "non-positive interval for NewTicker") |}.
Proof.
  intros H. unfold thread, halted, added. rewrite startScrapingLoop_panics by exact H.
  cbn [fst snd]. rewrite drop_all. reflexivity.
Qed.

Lemma loop_thread_ending P cfg n w h :
  ending (thread (startScrapingLoop P n cfg) w) = Some h ->
  ScrapeInterval cfg <= 0 /\ h = Panic "non-positive interval for NewTicker".
Proof.
  destruct (Z.le_gt_cases (ScrapeInterval cfg) 0) as [H | H].
  - rewrite loop_thread_panics by exact H. cbn [ending]. intros [= <-]. auto.
  - rewrite loop_thread_runs by lia. discriminate.
Qed.

Lemma own_thread P cfg w :
  thread (HandleFunc "/health" ;;
          Handle "/metrics" ;;
          log (LogStarting (Port cfg)) ;;
          log (LogScrapingEvery (ScrapeInterval cfg)) ;;
          log LogHealthAvailable ;;
          match listenAndServe P (Port cfg) with
          | Some err => Fatalf (LogFatalServer err)
          | None => ret tt
          end) w
  = {| steps := ownSteps P cfg;
       ending := match listenAndServe P (Port cfg) with
                 | Some _ => Some (Exit 1)
                 | None => None
                 end |}.
Proof.
  unfold thread, halted, ownSteps. f_equal.
  - apply added_app.
    cbv [bind HandleFunc Handle log emit Fatalf halt ret]. cbn [snd trace].
    destruct (listenAndServe P (Port cfg)); cbn [snd trace];
      rewrite <- ?app_assoc; reflexivity.
  - cbv [bind HandleFunc Handle log emit Fatalf halt ret].
    destruct (listenAndServe P (Port cfg)); reflexivity.
Qed.



Lemma metricsOf_prefix a l : a `prefix_of` l -> metricsOf l = [] -> metricsOf a = [].
Proof.
  intros [r ->]. rewrite metricsOf_app. intros H. apply app_eq_nil in H as [H _]. exact H.
Qed.

Lemma metricsOf_ownSteps P cfg : metricsOf (ownSteps P cfg) = [].
Proof. unfold ownSteps. destruct (listenAndServe P (Port cfg)); reflexivity. Qed.

(** The steps of the loop are the same whether it starts before or
    after steps of [main]. *)
Lemma loop_thread_after_own P cfg n b w :
  b `prefix_of` ownSteps P cfg ->
  thread (startScrapingLoop P n cfg) (replay b w) = thread (startScrapingLoop P n cfg) w.
Proof.
  intros Hb. symmetry. apply thread_alike; [apply steady_startScrapingLoop |].
  unfold alike, replay. cbn [environ blockedIP trace].
  rewrite (metricsOf_prefix b _ Hb (metricsOf_ownSteps P cfg)).
  split; [reflexivity |]. split; [reflexivity |].
  rewrite requests_app.
  assert (Hr : requests b = 0%nat); [| lia].
  destruct Hb as [r Hr]. apply (f_equal requests) in Hr.
  rewrite requests_app in Hr. unfold ownSteps in Hr. rewrite requests_app in Hr.
  destruct (listenAndServe P (Port cfg)); cbn in Hr; lia.
Qed.

Lemma main_run P w :
  main P w =
  match fst (loadConfig P w) with
  | inl (inl err) => (inr (Exit 1), logged (LogFatalConfig err) (snd (loadConfig P w)))
  | inl (inr cfg) =>
      let w1 := replay [EvRegister] (snd (loadConfig P w)) in
      let r := interleave (schedule P)
                 (thread (startScrapingLoop P (length (schedule P)) cfg) w1)
                 {| steps := ownSteps P cfg;
                    ending := match listenAndServe P (Port cfg) with
                              | Some _ => Some (Exit 1)
                              | None => None
                              end |} w1 in
      (match fst r with inl _ => inl cfg | inr h => inr h end, snd r)
  | inr h => (inr h, snd (loadConfig P w))
  end.
Proof.
  unfold main. unfold bind at 1.
  destruct (loadConfig P w) as [[[err | cfg] | h] w0]; cbn [fst snd]; try reflexivity.
  unfold bind at 1. unfold MustRegister at 1, emit at 1.
  change {| environ := environ w0; blockedIP := blockedIP w0;
            trace := trace w0 ++ [EvRegister] |} with (replay [EvRegister] w0).
  unfold bind at 1. unfold go at 1. rewrite own_thread. cbv zeta.
  destruct (interleave _ _ _ _) as [[[] | h] w2]; reflexivity.
Qed.

Lemma loadConfig_returns P w : exists r, fst (loadConfig P w) = inl r.
Proof. rewrite loadConfig_run. cbv zeta. eauto. Qed.


(** X13. The process that [main] starts ends in three ways only.  When
    a required variable is missing it exits with status 1 after the
    fatal line, and nothing else has happened.  With a configuration,
    it exits with status 1 only if the listener returns an error, and
    the fatal line of the server has been logged then; it panics only
    if the interval of the configuration is not positive, which is the
    panic of [time.NewTicker] in the goroutine.  With a positive
    interval and a listener that serves, the process never ends,
    whatever the scheduler does; with an interval that is not
    positive, it ends as soon as the goroutine gets a turn, if not
    before. *)
Theorem main_outcomes P w :
  match fst (loadConfig P w) with
  | inl (inl err) =>
      main P w = (inr (Exit 1), logged (LogFatalConfig err) (snd (loadConfig P w)))
  | inl (inr cfg) =>
      match fst (main P w) with
      | inl c => c = cfg
      | inr (Exit c) =>
          c = 1 /\ exists err, listenAndServe P (Port cfg) = Some err
                               /\ EvLog (LogFatalServer err) ∈ trace (snd (main P w))
      | inr (Panic _) => ScrapeInterval cfg <= 0
      end
      /\ (0 < ScrapeInterval cfg -> listenAndServe P (Port cfg) = None ->
          fst (main P w) = inl cfg)
      /\ (ScrapeInterval cfg <= 0 -> true ∈ schedule P ->
          exists h, fst (main P w) = inr h)
  | inr _ => False
  end.
Proof.
  rewrite main_run. destruct (loadConfig_returns P w) as [[err | cfg] ->]; [reflexivity |].
  cbv zeta. cbn [fst snd].
  set (w1 := replay [EvRegister] (snd (loadConfig P w))).
  set (f := thread (startScrapingLoop P (length (schedule P)) cfg) w1).
  set (k := {| steps := ownSteps P cfg; ending := _ |}).
  split; [| split].
  - destruct (interleave_spec (schedule P) f k w1) as (a & b & t & _ & _ & Hi & _ & Hs & Hr).
    destruct (fst (interleave (schedule P) f k w1)) as [[] | [c | msg]]; [reflexivity | |].
    + destruct Hr as [[He _] | [He Hb]].
      { apply loop_thread_ending in He as [_ ?]. discriminate. }
      subst k. cbn [ending steps] in He, Hb.
      destruct (listenAndServe P (Port cfg)) as [err |] eqn:El; [| discriminate].
      injection He as <-. split; [reflexivity |]. exists err. split; [reflexivity |].
      rewrite Hs. cbn [replay trace]. apply elem_of_app. right.
      apply interleaving_sublist in Hi as [_ Hsub].
      eapply elem_of_sublist; [| exact Hsub]. rewrite Hb. unfold ownSteps. rewrite El.
      apply elem_of_app. right. apply list_elem_of_here.
    + destruct Hr as [[He _] | [He _]].
      * apply loop_thread_ending in He as [? _]. assumption.
      * subst k. cbn [ending] in He. destruct (listenAndServe P (Port cfg)); discriminate.
  - intros Hpos Hl. rewrite interleave_runs; [reflexivity | |].
    + apply loop_thread_runs. exact Hpos.
    + subst k. cbn [ending]. rewrite Hl. reflexivity.
  - intros Hneg Hin.
    destruct (interleave_halts (schedule P) (Panic "non-positive interval for NewTicker")
                f k w1) as [h Hh].
    + subst f. rewrite loop_thread_panics by exact Hneg. reflexivity.
    + subst f. rewrite loop_thread_panics by exact Hneg. reflexivity.
    + exact Hin.
    + rewrite Hh. eauto.
Qed.


(** ** Runs of the process *)

(** The interval of 9223372037 seconds: the goroutine panics at its
    first turn, here after [main] has registered its handlers. *)
Example run_main_overflow :
  let P := withSchedule (platformWith (ok200 payloadOne)) [false; false; true; false] in
  let r := main P (startWorld (exampleEnv "9223372037")) in
  fst r = inr (Panic "non-positive interval for NewTicker")
  /\ trace (snd r)
     = [EvLog (WarnDotenv "open .env: no such file or directory");
        EvRegister; EvHandle "/health"; EvHandle "/metrics"].
Proof. split; vm_compute; reflexivity. Qed.

(** A listener that fails: the loop has logged and called the upstream
    before the fatal line, and empties the vector between the fatal
    line and the exit. *)
Example run_main_listen_fails :
  let P := withSchedule platformNoListen
             [true; true; false; false; false; false; false; true; false; true; false] in
  let r := main P (startWorld (exampleEnv "60")) in
  fst r = inr (Exit 1)
  /\ List.filter isLog (trace (snd r))
     = [EvLog (WarnDotenv "open .env: no such file or directory");
        EvLog LogScraping;
        EvLog (LogStarting ":9898");
        EvLog (LogScrapingEvery 60000000000);
        EvLog LogHealthAvailable;
        EvLog (LogFatalServer "listen tcp :9898: bind: address already in use")]
  /\ requests (trace (snd r)) = 1%nat
  /\ last (trace (snd r)) = Some (EvMetrics ∅).
Proof. repeat split; vm_compute; reflexivity. Qed.

(** A process that serves: after the first cycle of the loop the
    vector holds the entry of the payload. *)
Example run_main_serves :
  let P := withSchedule (platformWith (ok200 payloadOne))
             [true; false; true; true; false; true; true; true; false; true; true] in
  let r := main P (startWorld (exampleEnv "60")) in
  (exists cfg, fst r = inl cfg /\ Port cfg = ":9898")
  /\ render (snd r)
     = [{| GaugeVec.ip := "1.2.3.4"; GaugeVec.uuid := "u1"; GaugeVec.value := 1 |}]
  /\ List.filter isTick (trace (snd r)) = [EvTick].
Proof. split; [eexists; split; vm_compute; reflexivity |]. split; vm_compute; reflexivity. Qed.
